(** * Pipeline execution core of the StarRocks backend

    A shallow embedding of

    - [be/src/exec/pipeline/fragment_context.h]   (class [FragmentContext]),
    - [be/src/exec/pipeline/fragment_context.cpp] (class [FragmentContextManager]),
    - [be/src/exec/pipeline/pipeline_builder.cpp] (class [PipelineBuilderContext]),

    followed by the properties of these classes that the design document
    states.  C++ objects that are shared through pointers live in an explicit
    store; machine integers are [Z] with their conversions written out. *)

From stdpp Require Import gmap strings list.
From Stdlib Require Import ZArith Lia.

Local Open Scope Z_scope.

(** ** Machine integers *)

Module CInt.

Definition SIZE_MOD : Z := 2 ^ 64.
Definition INT_MIN : Z := - 2 ^ 31.
Definition INT_MAX : Z := 2 ^ 31 - 1.

(** Conversion of an integer value to [size_t]: reduction modulo 2^64. *)
Definition to_size_t (z : Z) : Z := z mod SIZE_MOD.

(** [static_cast<int>]: reduction modulo 2^32 into the signed range. *)
Definition to_int (z : Z) : Z := (z + 2 ^ 31) mod 2 ^ 32 - 2 ^ 31.

Definition in_int (z : Z) : Prop := INT_MIN <= z <= INT_MAX.
Definition in_size_t (z : Z) : Prop := 0 <= z < SIZE_MOD.

Definition in_intb (z : Z) : bool := (INT_MIN <=? z) && (z <=? INT_MAX).

(** [size_t] arithmetic wraps around. *)
Definition size_sub (a b : Z) : Z := to_size_t (a - b).
Definition size_add (a b : Z) : Z := to_size_t (a + b).
Definition size_mul (a b : Z) : Z := to_size_t (a * b).

(** [int * int]: the product when it is representable; signed overflow has
    no defined result. *)
Definition int_mul (a b : Z) : option Z :=
  if in_intb (a * b) then Some (a * b) else None.

End CInt.

(** ** Types shared by the three classes *)

(** Modelled from the spec: the thrift struct [TUniqueId] (gen_cpp/Types_types.h
    is generated code and not among the sources) is the fragment identifier, a
    pair of 64-bit integers [(hi, lo)]. *)
Abbreviation TUniqueId := (Z * Z)%type (only parsing).

(** Modelled from the spec: class [Status] (common/status.h is not among the
    sources).  A status is OK, a cancellation, or some other failure, and
    carries a message; [Status::OK()] is the default-constructed value. *)
Inductive StatusCode := TOK | TCANCELLED | TOTHER (code : nat).

Record Status := mkStatus { status_code : StatusCode; status_msg : string }.

Definition Status_OK : Status := mkStatus TOK EmptyString.
Definition Status_Cancelled (msg : string) : Status := mkStatus TCANCELLED msg.
Definition Status_InternalError (msg : string) : Status := mkStatus (TOTHER 6) msg.

Definition is_cancelled (s : Status) : bool :=
  match status_code s with TCANCELLED => true | _ => false end.

#[global] Instance StatusCode_eq_dec : EqDecision StatusCode.
Proof. solve_decision. Defined.
#[global] Instance Status_eq_dec : EqDecision Status.
Proof. solve_decision. Defined.


(** ** [FragmentContext] (fragment_context.h) *)

Module FragmentCtx.

(** The values of the slot [std::atomic<Status*> _final_status]: the null
    pointer; the address of the member [_s_status], the only pointer the
    class stores into it; or any other pointer, which the slot can hold only
    as long as nothing has been stored into it, and at which no [Status] is
    known to live. *)
Inductive StatusPtr := nullptr | addr_s_status | wild_pointer.

#[global] Instance StatusPtr_eq_dec : EqDecision StatusPtr.
Proof. solve_decision. Defined.

(** Modelled from the spec: the completion signal [_finish_promise].  Its
    type [FragmentPromise] is declared in pipeline_fwd.h, which is not among
    the sources; the class uses it as a [std::promise<void>] ([set_value],
    [get_future]).  The state records whether the signal has been released
    (a value has been set) and whether the future has been handed out. *)
Record Promise := mkPromise { promise_satisfied : bool; future_retrieved : bool }.

(** One line of the WARNING log written by [set_final_status]:
    "[Driver] Canceled, query_id=.., instance_id=.., reason=..".  [log_reason]
    is the status whose [to_string()] is printed after "reason=". *)
Record LogRecord := mkLog {
  log_query_id : TUniqueId;
  log_instance_id : TUniqueId;
  log_reason : Status
}.

(** Drivers and pipelines are held through shared pointers; here they are
    the addresses of the objects. *)
Definition DriverPtr : Type := nat.
Definition PipelinePtr : Type := nat.

(** The members of [FragmentContext] that its inline member functions read
    or write, under the names of the class.  [warnings] is the log stream the
    context writes to (oldest line first); it is not a member of the class. *)
Record FragmentContext := mkCtx {
  _query_id : TUniqueId;
  _fragment_instance_id : TUniqueId;
  _is_report_profile : bool;
  _finish_promise : Promise;
  _pipelines : list PipelinePtr;
  _drivers : list DriverPtr;
  _num_drivers : Z;
  _final_status : StatusPtr;
  _cancel_flag : bool;
  _s_status : Status;
  _enable_resource_group : bool;
  warnings : list LogRecord
}.

(** Field updates. *)
Definition with_query_id (v : TUniqueId) (c : FragmentContext) : FragmentContext :=
  mkCtx v (_fragment_instance_id c) (_is_report_profile c) (_finish_promise c)
        (_pipelines c) (_drivers c) (_num_drivers c) (_final_status c)
        (_cancel_flag c) (_s_status c) (_enable_resource_group c) (warnings c).
Definition with_fragment_instance_id (v : TUniqueId) (c : FragmentContext) : FragmentContext :=
  mkCtx (_query_id c) v (_is_report_profile c) (_finish_promise c)
        (_pipelines c) (_drivers c) (_num_drivers c) (_final_status c)
        (_cancel_flag c) (_s_status c) (_enable_resource_group c) (warnings c).
Definition with_is_report_profile (v : bool) (c : FragmentContext) : FragmentContext :=
  mkCtx (_query_id c) (_fragment_instance_id c) v (_finish_promise c)
        (_pipelines c) (_drivers c) (_num_drivers c) (_final_status c)
        (_cancel_flag c) (_s_status c) (_enable_resource_group c) (warnings c).
Definition with_finish_promise (v : Promise) (c : FragmentContext) : FragmentContext :=
  mkCtx (_query_id c) (_fragment_instance_id c) (_is_report_profile c) v
        (_pipelines c) (_drivers c) (_num_drivers c) (_final_status c)
        (_cancel_flag c) (_s_status c) (_enable_resource_group c) (warnings c).
Definition with_pipelines (v : list PipelinePtr) (c : FragmentContext) : FragmentContext :=
  mkCtx (_query_id c) (_fragment_instance_id c) (_is_report_profile c) (_finish_promise c)
        v (_drivers c) (_num_drivers c) (_final_status c)
        (_cancel_flag c) (_s_status c) (_enable_resource_group c) (warnings c).
Definition with_drivers (v : list DriverPtr) (c : FragmentContext) : FragmentContext :=
  mkCtx (_query_id c) (_fragment_instance_id c) (_is_report_profile c) (_finish_promise c)
        (_pipelines c) v (_num_drivers c) (_final_status c)
        (_cancel_flag c) (_s_status c) (_enable_resource_group c) (warnings c).
Definition with_num_drivers (v : Z) (c : FragmentContext) : FragmentContext :=
  mkCtx (_query_id c) (_fragment_instance_id c) (_is_report_profile c) (_finish_promise c)
        (_pipelines c) (_drivers c) v (_final_status c)
        (_cancel_flag c) (_s_status c) (_enable_resource_group c) (warnings c).
Definition with_final_status (v : StatusPtr) (c : FragmentContext) : FragmentContext :=
  mkCtx (_query_id c) (_fragment_instance_id c) (_is_report_profile c) (_finish_promise c)
        (_pipelines c) (_drivers c) (_num_drivers c) v
        (_cancel_flag c) (_s_status c) (_enable_resource_group c) (warnings c).
Definition with_cancel_flag (v : bool) (c : FragmentContext) : FragmentContext :=
  mkCtx (_query_id c) (_fragment_instance_id c) (_is_report_profile c) (_finish_promise c)
        (_pipelines c) (_drivers c) (_num_drivers c) (_final_status c)
        v (_s_status c) (_enable_resource_group c) (warnings c).
Definition with_s_status (v : Status) (c : FragmentContext) : FragmentContext :=
  mkCtx (_query_id c) (_fragment_instance_id c) (_is_report_profile c) (_finish_promise c)
        (_pipelines c) (_drivers c) (_num_drivers c) (_final_status c)
        (_cancel_flag c) v (_enable_resource_group c) (warnings c).
Definition with_enable_resource_group (v : bool) (c : FragmentContext) : FragmentContext :=
  mkCtx (_query_id c) (_fragment_instance_id c) (_is_report_profile c) (_finish_promise c)
        (_pipelines c) (_drivers c) (_num_drivers c) (_final_status c)
        (_cancel_flag c) (_s_status c) v (warnings c).
Definition with_warnings (v : list LogRecord) (c : FragmentContext) : FragmentContext :=
  mkCtx (_query_id c) (_fragment_instance_id c) (_is_report_profile c) (_finish_promise c)
        (_pipelines c) (_drivers c) (_num_drivers c) (_final_status c)
        (_cancel_flag c) (_s_status c) (_enable_resource_group c) v.

(** What the storage of a new context holds in the two members that the
    constructor leaves without a value: [std::atomic<size_t> _num_drivers]
    and [std::atomic<Status*> _final_status] have no default member
    initialiser and are not in the initialiser list of the constructor, and
    the default constructor of [std::atomic] initialises nothing (before
    C++20).  Their contents are whatever the allocation holds, and that is
    what a load of them yields until something is stored.
    [raw_num_drivers] stands for a [size_t]. *)
Record Indeterminate := mkIndeterminate {
  raw_num_drivers : Z;
  raw_final_status : StatusPtr
}.

(** [FragmentContext() : _cancel_flag(false) {}] with the default member
    initialisers of the class, on storage that holds [raw].  The constructor
    sets [_cancel_flag]; [_is_report_profile] and [_enable_resource_group]
    have the initialiser [false]; the two identifiers are default
    [TUniqueId]s; [_s_status] is the default [Status], which is OK; the
    containers and the promise are default-constructed; and the two atomics
    without an initialiser keep what the storage held. *)
Definition new_FragmentContext (raw : Indeterminate) : FragmentContext :=
  mkCtx (0, 0) (0, 0) false (mkPromise false false) [] []
        (raw_num_drivers raw) (raw_final_status raw) false
        Status_OK false [].

(** Storage in which the status slot holds a pointer that is neither null
    nor [&_s_status]. *)
Definition garbage : Indeterminate := mkIndeterminate 3735928559 wild_pointer.

(** [std::vector::size()]. *)
Definition vector_size {A} (v : list A) : Z := Z.of_nat (length v).

Definition set_query_id (query_id : TUniqueId) (c : FragmentContext) : FragmentContext :=
  with_query_id query_id c.

Definition set_fragment_instance_id (id : TUniqueId) (c : FragmentContext) : FragmentContext :=
  with_fragment_instance_id id c.

Definition set_report_profile (c : FragmentContext) : FragmentContext :=
  with_is_report_profile true c.

Definition set_pipelines (pipelines : list PipelinePtr) (c : FragmentContext) : FragmentContext :=
  with_pipelines pipelines c.

Definition set_enable_resource_group (c : FragmentContext) : FragmentContext :=
  with_enable_resource_group true c.

(** [set_drivers]: [_drivers = std::move(drivers);
    _num_drivers.store(_drivers.size()); _final_status.store(nullptr);] *)
Definition set_drivers (drivers : list DriverPtr) (c : FragmentContext) : FragmentContext :=
  let c1 := with_drivers drivers c in
  let c2 := with_num_drivers (vector_size (_drivers c1)) c1 in
  with_final_status nullptr c2.

(** [_num_drivers.fetch_sub(d)] on a [std::atomic<size_t>]: one atomic
    read-modify-write that yields the value held before and stores the
    difference, reduced modulo 2^64. *)
Definition num_drivers_fetch_sub (d : Z) (c : FragmentContext) : Z * FragmentContext :=
  (_num_drivers c, with_num_drivers (CInt.size_sub (_num_drivers c) d) c).

(** [count_down_drivers]: [return _num_drivers.fetch_sub(1) == 1;] *)
Definition count_down_drivers (c : FragmentContext) : bool * FragmentContext :=
  let '(old, c') := num_drivers_fetch_sub 1 c in (old =? 1, c').

(** [*p] for a value [p] of the status slot: [&_s_status] refers to the
    member; null has no referent, and neither has a pointer that was never
    stored. *)
Definition deref (p : StatusPtr) (c : FragmentContext) : option Status :=
  match p with
  | addr_s_status => Some (_s_status c)
  | nullptr | wild_pointer => None
  end.

(** [_final_status.compare_exchange_strong(expected, desired)]: stores
    [desired] and succeeds when the slot holds [expected]. *)
Definition final_status_compare_exchange_strong (expected desired : StatusPtr)
    (c : FragmentContext) : bool * FragmentContext :=
  match _final_status c, expected with
  | nullptr, nullptr | addr_s_status, addr_s_status | wild_pointer, wild_pointer =>
      (true, with_final_status desired c)
  | _, _ => (false, c)
  end.

(** [final_status]: [status == nullptr ? Status::OK() : *status].  The
    result is [None] when [*status] has no referent. *)
Definition final_status (c : FragmentContext) : option Status :=
  match _final_status c with
  | nullptr => Some Status_OK
  | status => deref status c
  end.

(** [set_final_status], statement by statement: the early return when the
    slot holds anything but null; the compare-and-swap of null against
    [&_s_status]; on success the test [_final_status.load()->is_cancelled()]
    and the log line whose reason is [final_status().to_string()]; and last
    the assignment [_s_status = status].  The slot holds [&_s_status] when
    the test dereferences it and when [final_status()] reads it, so the
    [None] branches of the two matches are never taken (lemma
    [set_final_status_deref] below). *)
Definition set_final_status (status : Status) (c : FragmentContext) : FragmentContext :=
  match _final_status c with
  | nullptr =>
      let '(swapped, c1) := final_status_compare_exchange_strong nullptr addr_s_status c in
      if swapped then
        let c2 :=
          match deref (_final_status c1) c1 with
          | Some s =>
              if is_cancelled s
              then match final_status c1 with
                   | Some reason =>
                       with_warnings
                         (warnings c1 ++
                          [mkLog (_query_id c1) (_fragment_instance_id c1) reason]) c1
                   | None => c1
                   end
              else c1
          | None => c1
          end in
        with_s_status status c2
      else c1
  | addr_s_status | wild_pointer => c
  end.

(** [cancel]: [_cancel_flag.store(true); set_final_status(status);] *)
Definition cancel (status : Status) (c : FragmentContext) : FragmentContext :=
  set_final_status status (with_cancel_flag true c).

(** [finish]: [cancel(Status::OK())]. *)
Definition finish (c : FragmentContext) : FragmentContext := cancel Status_OK c.

(** [is_canceled]: [_cancel_flag.load() == true]. *)
Definition is_canceled (c : FragmentContext) : bool := eqb (_cancel_flag c) true.

(** [_finish_promise.set_value()], as [FragmentContextManager::unregister]
    calls it: a promise that already holds a value throws
    [std::future_error] and is left as it was. *)
Definition promise_set_value (p : Promise) : option Promise :=
  if promise_satisfied p then None
  else Some (mkPromise true (future_retrieved p)).

(** The calls a client can make on a context, for statements about
    arbitrary later use of it. *)
Inductive Op :=
| OpSetQueryId (id : TUniqueId)
| OpSetFragmentInstanceId (id : TUniqueId)
| OpSetReportProfile
| OpSetPipelines (ps : list PipelinePtr)
| OpSetDrivers (ds : list DriverPtr)
| OpCountDownDrivers
| OpSetFinalStatus (s : Status)
| OpFinalStatus
| OpCancel (s : Status)
| OpFinish
| OpIsCanceled
| OpSetEnableResourceGroup
| OpFinishPromiseSetValue.

Definition apply_op (o : Op) (c : FragmentContext) : FragmentContext :=
  match o with
  | OpSetQueryId id => set_query_id id c
  | OpSetFragmentInstanceId id => set_fragment_instance_id id c
  | OpSetReportProfile => set_report_profile c
  | OpSetPipelines ps => set_pipelines ps c
  | OpSetDrivers ds => set_drivers ds c
  | OpCountDownDrivers => snd (count_down_drivers c)
  | OpSetFinalStatus s => set_final_status s c
  | OpFinalStatus => c
  | OpCancel s => cancel s c
  | OpFinish => finish c
  | OpIsCanceled => c
  | OpSetEnableResourceGroup => set_enable_resource_group c
  | OpFinishPromiseSetValue =>
      match promise_set_value (_finish_promise c) with
      | Some p => with_finish_promise p c
      | None => c
      end
  end.

Definition apply_ops (os : list Op) (c : FragmentContext) : FragmentContext :=
  foldl (fun c o => apply_op o c) c os.

(** What one invocation of [count_down_drivers] saw and returned. *)
Record CountDown := mkCountDown {
  cd_caller : nat;
  cd_observed : Z;
  cd_returned : bool
}.

(** The invocations of [count_down_drivers] by the driver threads [callers],
    in the order in which their read-modify-writes take effect.  Each
    invocation is that single atomic operation, so every interleaving of the
    threads is one such order. *)
Fixpoint count_down_all (callers : list nat) (c : FragmentContext)
    : list CountDown * FragmentContext :=
  match callers with
  | [] => ([], c)
  | t :: rest =>
      let '(r, c1) := count_down_drivers c in
      let '(evs, c2) := count_down_all rest c1 in
      (mkCountDown t (_num_drivers c) r :: evs, c2)
  end.

(** The event the [i]-th invocation produces when the counter started at
    [n]. *)
Definition nth_count_down (n : Z) (i : nat) (t : nat) : CountDown :=
  mkCountDown t (n - Z.of_nat i) (n - Z.of_nat i =? 1).

(** The event the [i]-th invocation produces from a counter that started
    at [n], the subtraction wrapping around. *)
Definition nth_count_down_wrapping (n : Z) (i : nat) (t : nat) : CountDown :=
  mkCountDown t ((n - Z.of_nat i) mod CInt.SIZE_MOD)
              ((n - Z.of_nat i) mod CInt.SIZE_MOD =? 1).

(** *** Preparing and closing the pipelines *)

(** [Status::ok()]. *)
Definition status_ok (s : Status) : bool :=
  match status_code s with TOK => true | _ => false end.

(** What is done to the pipelines of a context, oldest first. *)
Inductive PipelineEvent :=
| Prepared (pipe : PipelinePtr)
| Closed (pipe : PipelinePtr).

(** The loop of [prepare_all_pipelines]:
    [for (auto& pipe : _pipelines) RETURN_IF_ERROR(pipe->prepare(state));
    return Status::OK();].  Modelled from the spec: [Pipeline::prepare]
    (pipeline.h is not among the sources) is the parameter [pipe_prepare],
    acting on whatever state [W] it works on, and [RETURN_IF_ERROR] leaves
    the function with the status of the call when that status is not OK. *)
Fixpoint prepare_pipelines {W : Type} (pipe_prepare : PipelinePtr -> W -> Status * W)
    (pipelines : list PipelinePtr) (w : W) (log : list PipelineEvent)
    : Status * W * list PipelineEvent :=
  match pipelines with
  | [] => (Status_OK, w, log)
  | pipe :: rest =>
      let '(st, w1) := pipe_prepare pipe w in
      if status_ok st
      then prepare_pipelines pipe_prepare rest w1 (log ++ [Prepared pipe])
      else (st, w1, log ++ [Prepared pipe])
  end.

Definition prepare_all_pipelines {W : Type} (pipe_prepare : PipelinePtr -> W -> Status * W)
    (c : FragmentContext) (w : W) (log : list PipelineEvent)
    : Status * W * list PipelineEvent :=
  prepare_pipelines pipe_prepare (_pipelines c) w log.

(** [close_all_pipelines]: [for (auto& pipe : _pipelines) pipe->close(state);]
    with [Pipeline::close] the parameter [pipe_close]. *)
Definition close_all_pipelines {W : Type} (pipe_close : PipelinePtr -> W -> W)
    (c : FragmentContext) (w : W) (log : list PipelineEvent)
    : W * list PipelineEvent :=
  foldl (fun st pipe => (pipe_close pipe st.1, st.2 ++ [Closed pipe])) (w, log)
        (_pipelines c).

(** The calls [pipe->prepare(state)] on the pipelines [pipelines], one
    after the other from the state [w], every one of them made whatever the
    others return: the statuses they return and the state they leave. *)
Fixpoint prepare_each {W : Type} (pipe_prepare : PipelinePtr -> W -> Status * W)
    (pipelines : list PipelinePtr) (w : W) : list Status * W :=
  match pipelines with
  | [] => ([], w)
  | pipe :: rest =>
      let '(st, w1) := pipe_prepare pipe w in
      let '(sts, w2) := prepare_each pipe_prepare rest w1 in
      (st :: sts, w2)
  end.

(** Every one of these calls returns OK, and together they lead from [w]
    to [w']. *)
Definition all_prepare_ok {W : Type} (pipe_prepare : PipelinePtr -> W -> Status * W)
    (pipelines : list PipelinePtr) (w w' : W) : Prop :=
  Forall (fun st => status_ok st = true) (prepare_each pipe_prepare pipelines w).1 /\
  (prepare_each pipe_prepare pipelines w).2 = w'.

(** The pipelines an event log prepared, and those it closed. *)
Definition prepared_in (log : list PipelineEvent) : list PipelinePtr :=
  omap (fun e => match e with Prepared p => Some p | Closed _ => None end) log.

Definition closed_in (log : list PipelineEvent) : list PipelinePtr :=
  omap (fun e => match e with Closed p => Some p | Prepared _ => None end) log.

(** The status slot is empty and [_s_status] still holds a status that is
    no cancellation, or the slot is set. *)
Definition quiet (c : FragmentContext) : Prop :=
  _final_status c = nullptr -> is_cancelled (_s_status c) = false.

(** *** Racing calls of [set_final_status]

    The function above is a call that runs alone.  For calls that race, a
    call is cut at its accesses to the shared context: the load of the early
    return, the compare-and-swap, the test with its log line, and the
    assignment to [_s_status]. *)
Inductive Pc := AtCheck | AtSwap | AtLog | AtStore | Returned.

(** A call in flight: its argument, where it stands, and what its
    compare-and-swap returned ([false] as long as it has not executed
    one). *)
Record Call := mkCall { call_status : Status; call_pc : Pc; call_swapped : bool }.

(** The next access of the call [k]. *)
Definition call_step (k : Call) (c : FragmentContext) : Call * FragmentContext :=
  match call_pc k with
  | AtCheck =>
      match _final_status c with
      | nullptr => (mkCall (call_status k) AtSwap (call_swapped k), c)
      | addr_s_status | wild_pointer => (mkCall (call_status k) Returned (call_swapped k), c)
      end
  | AtSwap =>
      let '(swapped, c1) := final_status_compare_exchange_strong nullptr addr_s_status c in
      (mkCall (call_status k) (if swapped then AtLog else Returned) swapped, c1)
  | AtLog =>
      (mkCall (call_status k) AtStore (call_swapped k),
       match deref (_final_status c) c with
       | Some s =>
           if is_cancelled s
           then match final_status c with
                | Some reason =>
                    with_warnings
                      (warnings c ++
                       [mkLog (_query_id c) (_fragment_instance_id c) reason]) c
                | None => c
                end
           else c
       | None => c
       end)
  | AtStore =>
      (mkCall (call_status k) Returned (call_swapped k), with_s_status (call_status k) c)
  | Returned => (k, c)
  end.

(** The calls in flight with the context they share; thread [i] takes its
    next step. *)
Definition thread_step (i : nat) (st : list Call * FragmentContext)
    : list Call * FragmentContext :=
  match st.1 !! i with
  | Some k => let '(k', c') := call_step k st.2 in (<[i := k']> st.1, c')
  | None => st
  end.

(** A schedule names the thread that steps next, over and over. *)
Definition run_schedule (sched : list nat) (st : list Call * FragmentContext)
    : list Call * FragmentContext :=
  foldl (fun st i => thread_step i st) st sched.

Definition calls_of (args : list Status) : list Call :=
  map (fun s => mkCall s AtCheck false) args.

(** The accesses to the shared context that a call has still to make, at
    most, before it has returned. *)
Definition steps_left (pc : Pc) : nat :=
  match pc with
  | AtCheck => 4
  | AtSwap => 3
  | AtLog => 2
  | AtStore => 1
  | Returned => 0
  end.

(** The schedule gives each of the threads [0 .. n-1] at least four
    turns. *)
Definition gives_four_turns (n : nat) (sched : list nat) : Prop :=
  forall i, (i < n)%nat -> (4 <= length (filter (eq i) sched))%nat.

(** Nobody has won the compare-and-swap yet. *)
Definition no_winner (ks : list Call) (c : FragmentContext) : Prop :=
  _final_status c = nullptr /\
  Forall (fun k => (call_pc k = AtCheck \/ call_pc k = AtSwap) /\
                   call_swapped k = false) ks.

(** The compare-and-swap of thread [i] has succeeded, and of no other
    thread: the others are before theirs or have returned without storing
    anything. *)
Definition winner_is (i : nat) (ks : list Call) (c : FragmentContext) : Prop :=
  _final_status c = addr_s_status /\
  (exists k, ks !! i = Some k /\ call_swapped k = true /\
     (call_pc k = AtLog \/ call_pc k = AtStore \/
      (call_pc k = Returned /\ _s_status c = call_status k))) /\
  (forall j k, j <> i -> ks !! j = Some k ->
     call_swapped k = false /\
     (call_pc k = AtCheck \/ call_pc k = AtSwap \/ call_pc k = Returned)).

Definition race_inv (ks : list Call) (c : FragmentContext) : Prop :=
  no_winner ks c \/ exists i, winner_is i ks c.

(** The one operation that empties the status slot. *)
Definition is_set_drivers (o : Op) : Prop :=
  match o with OpSetDrivers _ => True | _ => False end.

End FragmentCtx.


(** ** [FragmentContextManager] (fragment_context.cpp) *)

Module FragmentMgr.

Import FragmentCtx.

(** Addresses of [FragmentContext] objects. *)
Definition loc : Type := nat.

(** [FragmentContextPtr], a shared pointer to a context: null ([None]) or
    the address of a context. *)
Abbreviation FragmentContextPtr := (option loc) (only parsing).

(** The contexts that exist in the process ([ctx_heap], by address; a new
    context takes the next address, and the model never reclaims one) and
    the manager's member [_fragment_contexts].  Every member function holds
    [_lock] for its whole body, so calls take effect one at a time. *)
Record State := mkState {
  ctx_heap : list FragmentContext;
  _fragment_contexts : gmap TUniqueId FragmentContextPtr
}.

(** How a call ends: it returns a value, an exception leaves it (the lock
    guard releases the mutex and the state is the one reached so far), or it
    dereferences a pointer that has no referent. *)
Inductive Outcome (A : Type) :=
| Returns (a : A) (s : State)
| Throws (s : State)
| Undefined.
Arguments Returns {A} a s.
Arguments Throws {A} s.
Arguments Undefined {A}.

Definition empty_manager : State := mkState [] ∅.

(** [get_or_register]: the context found under [fragment_id], or else a
    context made by [std::make_unique<FragmentContext>()] and emplaced.
    [raw] is what the storage of such a new context holds where the
    constructor initialises nothing. *)
Definition get_or_register (fragment_id : TUniqueId) (raw : Indeterminate) (s : State)
    : Outcome FragmentContextPtr :=
  match _fragment_contexts s !! fragment_id with
  | Some p => Returns p s
  | None =>
      let raw_ctx := length (ctx_heap s) in
      Returns (Some raw_ctx)
        (mkState (ctx_heap s ++ [new_FragmentContext raw])
                 (<[fragment_id := Some raw_ctx]> (_fragment_contexts s)))
  end.


(** [get]: the mapped pointer, or [nullptr]. *)
Definition get (fragment_id : TUniqueId) (s : State) : Outcome FragmentContextPtr :=
  match _fragment_contexts s !! fragment_id with
  | Some p => Returns p s
  | None => Returns None s
  end.

(** [unregister]: when [find] hits,
    [it->second->_finish_promise.set_value(); _fragment_contexts.erase(it);]
    and nothing otherwise. *)
Definition unregister (fragment_id : TUniqueId) (s : State) : Outcome unit :=
  match _fragment_contexts s !! fragment_id with
  | Some p =>
      match p with
      | None => Undefined
      | Some l =>
          match ctx_heap s !! l with
          | None => Undefined
          | Some c =>
              match promise_set_value (_finish_promise c) with
              | None => Throws s
              | Some pr =>
                  Returns ()
                    (mkState (<[l := with_finish_promise pr c]> (ctx_heap s))
                             (delete fragment_id (_fragment_contexts s)))
              end
          end
      end
  | None => Returns () s
  end.

(** [ptr->cancel(status)] through the pointer [p], on what is left of the
    heap ([None] once a null or dangling pointer has been dereferenced). *)
Definition cancel_at (status : Status) (p : FragmentContextPtr)
    (h : option (list FragmentContext)) : option (list FragmentContext) :=
  match h, p with
  | Some h, Some l =>
      match h !! l with
      | Some c => Some (<[l := FragmentCtx.cancel status c]> h)
      | None => None
      end
  | _, _ => None
  end.

(** [cancel]: [for (auto& ctx : _fragment_contexts) ctx.second->cancel(status);]
    in the iteration order of the map. *)
Definition cancel (status : Status) (s : State) : Outcome unit :=
  match
    foldl (fun h e => cancel_at status e.2 h) (Some (ctx_heap s))
          (map_to_list (_fragment_contexts s))
  with
  | Some h => Returns () (mkState h (_fragment_contexts s))
  | None => Undefined
  end.

(** The calls on a manager that create contexts only through
    [get_or_register]. *)
Inductive ManagerCall :=
| CallGetOrRegister (id : TUniqueId) (raw : Indeterminate)
| CallGet (id : TUniqueId)
| CallUnregister (id : TUniqueId)
| CallCancel (status : Status).

(** The state a call leaves when it returns. *)
Definition returned_state {A : Type} (o : Outcome A) : option State :=
  match o with
  | Returns _ s => Some s
  | Throws _ | Undefined => None
  end.

Definition call_manager (k : ManagerCall) (s : State) : option State :=
  match k with
  | CallGetOrRegister id raw => returned_state (get_or_register id raw s)
  | CallGet id => returned_state (get id s)
  | CallUnregister id => returned_state (unregister id s)
  | CallCancel status => returned_state (cancel status s)
  end.

(** A sequence of calls, as long as each returns. *)
Fixpoint call_manager_all (ks : list ManagerCall) (s : State) : option State :=
  match ks with
  | [] => Some s
  | k :: rest =>
      match call_manager k s with
      | Some s' => call_manager_all rest s'
      | None => None
      end
  end.

(** Every registered pointer refers to a context. *)
Definition registered_live (s : State) : Prop :=
  ∀ id p, _fragment_contexts s !! id = Some p →
    ∃ l c, p = Some l ∧ ctx_heap s !! l = Some c.

(** Every registered pointer refers to a context whose completion signal
    has not been released yet. *)
Definition registered_pending (s : State) : Prop :=
  ∀ id p, _fragment_contexts s !! id = Some p →
    ∃ l c, p = Some l ∧ ctx_heap s !! l = Some c ∧
           promise_satisfied (_finish_promise c) = false.

(** No context is registered under two identifiers. *)
Definition registered_once (s : State) : Prop :=
  ∀ id1 id2 p, _fragment_contexts s !! id1 = Some p →
    _fragment_contexts s !! id2 = Some p → id1 = id2.

Definition well_formed (s : State) : Prop :=
  registered_pending s ∧ registered_once s.


(** The state [unregister] leaves when it finds the context [c] at [l]. *)
Definition unregistered (id : TUniqueId) (l : loc) (c : FragmentContext)
    (s : State) : State :=
  mkState
    (<[l := with_finish_promise
              (mkPromise true (future_retrieved (_finish_promise c))) c]> (ctx_heap s))
    (delete id (_fragment_contexts s)).


End FragmentMgr.


(** ** [PipelineBuilderContext] (pipeline_builder.cpp) *)

Module Builder.

(** Addresses of the objects held through [std::shared_ptr] or raw
    pointers: operator factories, memory managers and exchangers. *)
Definition ptr : Type := nat.

(** [OpFactories]: a vector of shared pointers to operator factories. *)
Abbreviation OpFactories := (list ptr) (only parsing).

(** Modelled from the spec: [RuntimeState] (runtime/runtime_state.h is not
    among the sources) supplies the target batch size, the number of rows
    per chunk, read by [state->chunk_size()] as a C++ [int]. *)
Record RuntimeState := mkRuntimeState { chunk_size : Z }.

(** Modelled from the spec: the exchangers (the local exchange headers are
    not among the sources).  The routing policies are the closed set
    Broadcast, Passthrough, Partition.  As pipeline_builder.cpp constructs
    them, an exchanger takes the shared memory manager and a raw pointer to
    its one source factory; the partition exchanger also takes the partition
    type, the partition expressions and the parallelism of the predecessor's
    source. *)
Inductive Exchanger :=
| BroadcastExchanger (mem_mgr source : ptr)
| PassthroughExchanger (mem_mgr source : ptr)
| PartitionExchanger (mem_mgr source : ptr) (part_type : Z)
    (partition_expr_ctxs : list ptr) (pred_dop : Z).

(** Modelled from the spec: operator factories (the operator headers are
    not among the sources).  A factory has an id and a plan-node id and tells
    whether it is a source; a source factory has a degree of parallelism, a
    [size_t].  There are the factories the planner made, of which the builder
    only uses [is_source()] and [degree_of_parallelism()], and the two kinds
    the builder creates, with the constructor arguments pipeline_builder.cpp
    passes; the exchange source is a source factory and also holds the
    runtime state given to [set_runtime_state]. *)
Inductive OperatorFactory :=
| PlanOperatorFactory (id plan_node_id : Z)
| PlanSourceOperatorFactory (id plan_node_id : Z) (dop : Z)
| LocalExchangeSourceOperatorFactory (id plan_node_id : Z) (mem_mgr : ptr)
    (runtime_state : option RuntimeState) (dop : Z)
| LocalExchangeSinkOperatorFactory (id plan_node_id : Z) (exchanger : ptr).

(** The objects of the store.  Modelled from the spec:
    [LocalExchangeMemoryManager], the shared memory-budget manager of an
    exchange (its header is not among the sources), is recorded with the
    value of the expression the builder passes to its constructor. *)
Inductive Object :=
| ObjMemoryManager (max_row_count : Z)
| ObjExchanger (e : Exchanger)
| ObjFactory (f : OperatorFactory).

Definition is_source (f : OperatorFactory) : bool :=
  match f with
  | PlanSourceOperatorFactory _ _ _ | LocalExchangeSourceOperatorFactory _ _ _ _ _ => true
  | _ => false
  end.

(** [SourceOperatorFactory::degree_of_parallelism()], a [size_t]. *)
Definition degree_of_parallelism (f : OperatorFactory) : option Z :=
  match f with
  | PlanSourceOperatorFactory _ _ d | LocalExchangeSourceOperatorFactory _ _ _ _ d => Some d
  | _ => None
  end.

Definition with_degree_of_parallelism (d : Z) (f : OperatorFactory) : OperatorFactory :=
  match f with
  | PlanSourceOperatorFactory i n _ => PlanSourceOperatorFactory i n d
  | LocalExchangeSourceOperatorFactory i n m r _ => LocalExchangeSourceOperatorFactory i n m r d
  | _ => f
  end.

Definition with_runtime_state (st : RuntimeState) (f : OperatorFactory) : OperatorFactory :=
  match f with
  | LocalExchangeSourceOperatorFactory i n m _ d =>
      LocalExchangeSourceOperatorFactory i n m (Some st) d
  | _ => f
  end.

(** Modelled from the spec: [Pipeline] (exec/pipeline/pipeline.h is not
    among the sources) is the sealed, ordered sequence of operator
    factories. *)
Record Pipeline := mkPipeline { pipeline_op_factories : OpFactories }.

(** What pipeline_builder.cpp takes from pipeline_builder.h and the
    operator headers, none of which is among the sources: the state behind
    [next_operator_id()] and [next_pseudo_plan_node_id()] with the two
    generators, whether [DCHECK] is compiled in, and the parallelism a newly
    constructed source factory has before [set_degree_of_parallelism]. *)
Class BuilderEnv := mkBuilderEnv {
  IdGen : Type;
  gen_operator_id : IdGen → Z * IdGen;
  gen_pseudo_plan_node_id : IdGen → Z * IdGen;
  dcheck_is_on : bool;
  initial_dop : Z
}.

Section WithEnv.

Context `{Env : BuilderEnv}.

(** The members of [PipelineBuilderContext] (declared in
    pipeline_builder.h) that the functions use: the pipelines sealed so far,
    the state of the id generators, and the degree of parallelism. *)
Record PipelineBuilderContext := mkContext {
  _pipelines : list Pipeline;
  _id_gen : IdGen;
  _degree_of_parallelism : Z
}.

(** The object store and the builder context. *)
Record World := mkWorld {
  objects : list Object;
  context : PipelineBuilderContext
}.

Inductive Fault := DCheckFailure | UndefinedBehaviour.

Inductive Result (A : Type) :=
| Ok (a : A) (w : World)
| Failed (f : Fault).
#[global] Arguments Ok {A} a w.
#[global] Arguments Failed {A} f.

(** Computations of the builder: they read and update the world, and may
    stop in a fault. *)
Definition M (A : Type) : Type := World → Result A.

#[global] Instance M_ret : MRet M := λ A a w, Ok a w.
#[global] Instance M_bind : MBind M := λ A B f m w,
  match m w with
  | Ok a w' => f a w'
  | Failed e => Failed e
  end.

Definition fault {A} (f : Fault) : M A := λ _, Failed f.
Definition get_world : M World := λ w, Ok w w.
Definition put_context (c : PipelineBuilderContext) : M unit :=
  λ w, Ok () (mkWorld (objects w) c).

(** [std::make_shared<T>(..)]: the new object takes the next address. *)
Definition make_shared (o : Object) : M ptr :=
  λ w, Ok (length (objects w)) (mkWorld (objects w ++ [o]) (context w)).

(** Access through a pointer to an operator factory. *)
Definition load_factory (p : ptr) : M OperatorFactory :=
  λ w, match objects w !! p with
       | Some (ObjFactory f) => Ok f w
       | _ => Failed UndefinedBehaviour
       end.

Definition store_factory (p : ptr) (f : OperatorFactory) : M unit :=
  λ w, Ok () (mkWorld (<[p := ObjFactory f]> (objects w)) (context w)).

(** [v[i]] on a vector: reading past the end is undefined. *)
Definition vector_at {A} (v : list A) (i : nat) : M A :=
  match v !! i with
  | Some x => mret x
  | None => fault UndefinedBehaviour
  end.

(** [p->degree_of_parallelism()] through a [SourceOperatorFactory*]. *)
Definition source_degree_of_parallelism (p : ptr) : M Z :=
  f ← load_factory p;
  match degree_of_parallelism f with
  | Some d => mret d
  | None => fault UndefinedBehaviour
  end.

(** [p->set_degree_of_parallelism(d)]; the parameter is a [size_t]. *)
Definition set_degree_of_parallelism (p : ptr) (d : Z) : M unit :=
  f ← load_factory p;
  store_factory p (with_degree_of_parallelism (CInt.to_size_t d) f).

(** [p->set_runtime_state(state)]. *)
Definition set_runtime_state (p : ptr) (st : RuntimeState) : M unit :=
  f ← load_factory p;
  store_factory p (with_runtime_state st f).

(** [DCHECK(!pred_operators.empty() && pred_operators[0]->is_source())]:
    fatal when compiled in and false, absent otherwise. *)
Definition dcheck_nonempty_source (pred_operators : OpFactories) : M unit :=
  if dcheck_is_on then
    match pred_operators with
    | [] => fault DCheckFailure
    | p :: _ =>
        f ← load_factory p;
        if is_source f then mret () else fault DCheckFailure
    end
  else mret ().

(** [down_cast<SourceOperatorFactory*>(p)]: the same address; with checks
    compiled in, the dynamic type is asserted. *)
Definition down_cast_source (p : ptr) : M ptr :=
  if dcheck_is_on then
    f ← load_factory p;
    if is_source f then mret p else fault DCheckFailure
  else mret p.

Definition next_operator_id : M Z :=
  w ← get_world;
  let c := context w in
  let '(i, g) := gen_operator_id (_id_gen c) in
  put_context (mkContext (_pipelines c) g (_degree_of_parallelism c));;
  mret i.

Definition next_pseudo_plan_node_id : M Z :=
  w ← get_world;
  let c := context w in
  let '(i, g) := gen_pseudo_plan_node_id (_id_gen c) in
  put_context (mkContext (_pipelines c) g (_degree_of_parallelism c));;
  mret i.

(** [PipelineBuilderContext::degree_of_parallelism()]. *)
Definition context_degree_of_parallelism : M Z :=
  w ← get_world; mret (_degree_of_parallelism (context w)).

(** Modelled from the spec: [add_pipeline] (defined in pipeline_builder.h,
    which is not among the sources) seals the given operator-factory
    sequence into a Pipeline and appends it to the builder's result list. *)
Definition add_pipeline (operators : OpFactories) : M unit :=
  w ← get_world;
  let c := context w in
  put_context (mkContext (_pipelines c ++ [mkPipeline operators]) (_id_gen c)
                         (_degree_of_parallelism c)).

(** [int * int] in the builder: a product that does not fit is undefined. *)
Definition int_mul (a b : Z) : M Z :=
  match CInt.int_mul a b with
  | Some z => mret z
  | None => fault UndefinedBehaviour
  end.

(** The functions below take the vector that C++ passes by reference and
    return, next to the returned sequence, the vector as the call leaves
    it. *)

(** [maybe_interpolate_local_passthrough_exchange(state, pred_operators,
    num_receivers)]. *)
Definition maybe_interpolate_local_passthrough_exchange (state : RuntimeState)
    (pred_operators : OpFactories) (num_receivers : Z)
    : M (OpFactories * OpFactories) :=
  dcheck_nonempty_source pred_operators;;
  front ← vector_at pred_operators 0;
  source_operator ← down_cast_source front;
  dop ← source_degree_of_parallelism source_operator;
  if dop =? CInt.to_size_t num_receivers then mret (pred_operators, pred_operators)
  else
    pseudo_plan_node_id ← next_pseudo_plan_node_id;
    let buffer_size := Z.max num_receivers (CInt.to_int dop) in
    max_row_count ← int_mul (chunk_size state) buffer_size;
    mem_mgr ← make_shared (ObjMemoryManager max_row_count);
    source_id ← next_operator_id;
    local_exchange_source ← make_shared (ObjFactory
      (LocalExchangeSourceOperatorFactory source_id pseudo_plan_node_id mem_mgr None
                                          initial_dop));
    set_runtime_state local_exchange_source state;;
    local_exchange ← make_shared (ObjExchanger
      (PassthroughExchanger mem_mgr local_exchange_source));
    sink_id ← next_operator_id;
    local_exchange_sink ← make_shared (ObjFactory
      (LocalExchangeSinkOperatorFactory sink_id pseudo_plan_node_id local_exchange));
    let pred_operators' := pred_operators ++ [local_exchange_sink] in
    add_pipeline pred_operators';;
    set_degree_of_parallelism local_exchange_source num_receivers;;
    mret ([local_exchange_source], pred_operators').

(** The two-argument overload: [num_receivers] is 1. *)
Definition maybe_interpolate_local_passthrough_exchange_to_one (state : RuntimeState)
    (pred_operators : OpFactories) : M (OpFactories * OpFactories) :=
  maybe_interpolate_local_passthrough_exchange state pred_operators 1.

(** [maybe_interpolate_local_broadcast_exchange]. *)
Definition maybe_interpolate_local_broadcast_exchange (state : RuntimeState)
    (pred_operators : OpFactories) (num_receivers : Z)
    : M (OpFactories * OpFactories) :=
  if num_receivers =? 1
  then maybe_interpolate_local_passthrough_exchange_to_one state pred_operators
  else
    pseudo_plan_node_id ← next_pseudo_plan_node_id;
    rows ← int_mul (chunk_size state) num_receivers;
    max_row_count ← int_mul rows num_receivers;
    mem_mgr ← make_shared (ObjMemoryManager max_row_count);
    source_id ← next_operator_id;
    local_exchange_source ← make_shared (ObjFactory
      (LocalExchangeSourceOperatorFactory source_id pseudo_plan_node_id mem_mgr None
                                          initial_dop));
    set_runtime_state local_exchange_source state;;
    local_exchange ← make_shared (ObjExchanger
      (BroadcastExchanger mem_mgr local_exchange_source));
    sink_id ← next_operator_id;
    local_exchange_sink ← make_shared (ObjFactory
      (LocalExchangeSinkOperatorFactory sink_id pseudo_plan_node_id local_exchange));
    let pred_operators' := pred_operators ++ [local_exchange_sink] in
    add_pipeline pred_operators';;
    set_degree_of_parallelism local_exchange_source num_receivers;;
    mret ([local_exchange_source], pred_operators').

(** [maybe_interpolate_local_shuffle_exchange]. *)
Definition maybe_interpolate_local_shuffle_exchange (state : RuntimeState)
    (pred_operators : OpFactories) (partition_expr_ctxs : list ptr) (part_type : Z)
    : M (OpFactories * OpFactories) :=
  dcheck_nonempty_source pred_operators;;
  shuffle_partitions_num ← context_degree_of_parallelism;
  if shuffle_partitions_num <=? 1 then mret (pred_operators, pred_operators)
  else
    front ← vector_at pred_operators 0;
    pred_source_op ← down_cast_source front;
    pseudo_plan_node_id ← next_pseudo_plan_node_id;
    mem_mgr ← make_shared (ObjMemoryManager
      (CInt.size_mul shuffle_partitions_num (CInt.to_size_t (chunk_size state))));
    source_id ← next_operator_id;
    local_shuffle_source ← make_shared (ObjFactory
      (LocalExchangeSourceOperatorFactory source_id pseudo_plan_node_id mem_mgr None
                                          initial_dop));
    set_runtime_state local_shuffle_source state;;
    pred_dop ← source_degree_of_parallelism pred_source_op;
    local_shuffle ← make_shared (ObjExchanger
      (PartitionExchanger mem_mgr local_shuffle_source part_type partition_expr_ctxs
                          pred_dop));
    sink_id ← next_operator_id;
    local_shuffle_sink ← make_shared (ObjFactory
      (LocalExchangeSinkOperatorFactory sink_id pseudo_plan_node_id local_shuffle));
    let pred_operators' := pred_operators ++ [local_shuffle_sink] in
    add_pipeline pred_operators';;
    set_degree_of_parallelism local_shuffle_source shuffle_partitions_num;;
    mret ([local_shuffle_source], pred_operators').

(** The first loop of [maybe_gather_pipelines_to_one]:
    [max_row_count += source_operator->degree_of_parallelism() *
    state->chunk_size()] for every predecessor, in [size_t]. *)
Fixpoint gather_max_row_count (state : RuntimeState)
    (pred_operators_list : list OpFactories) (max_row_count : Z) : M Z :=
  match pred_operators_list with
  | [] => mret max_row_count
  | pred_ops :: rest =>
      front ← vector_at pred_ops 0;
      source_operator ← down_cast_source front;
      dop ← source_degree_of_parallelism source_operator;
      gather_max_row_count state rest
        (CInt.size_add max_row_count
           (CInt.size_mul dop (CInt.to_size_t (chunk_size state))))
  end.

(** Its second loop: a sink on the shared exchanger is appended to every
    predecessor, which is then sealed. *)
Fixpoint gather_append_sinks (pseudo_plan_node_id : Z) (exchanger : ptr)
    (pred_operators_list : list OpFactories) : M (list OpFactories) :=
  match pred_operators_list with
  | [] => mret []
  | pred_operators :: rest =>
      sink_id ← next_operator_id;
      local_exchange_sink ← make_shared (ObjFactory
        (LocalExchangeSinkOperatorFactory sink_id pseudo_plan_node_id exchanger));
      let pred_operators' := pred_operators ++ [local_exchange_sink] in
      add_pipeline pred_operators';;
      rest' ← gather_append_sinks pseudo_plan_node_id exchanger rest;
      mret (pred_operators' :: rest')
  end.

(** [maybe_gather_pipelines_to_one]. *)
Definition maybe_gather_pipelines_to_one (state : RuntimeState)
    (pred_operators_list : list OpFactories)
    : M (OpFactories * list OpFactories) :=
  if FragmentCtx.vector_size pred_operators_list =? 1 then
    first ← vector_at pred_operators_list 0;
    mret (first, pred_operators_list)
  else
    max_row_count ← gather_max_row_count state pred_operators_list 0;
    pseudo_plan_node_id ← next_pseudo_plan_node_id;
    mem_mgr ← make_shared (ObjMemoryManager max_row_count);
    source_id ← next_operator_id;
    local_exchange_source ← make_shared (ObjFactory
      (LocalExchangeSourceOperatorFactory source_id pseudo_plan_node_id mem_mgr None
                                          initial_dop));
    set_runtime_state local_exchange_source state;;
    exchanger ← make_shared (ObjExchanger
      (PassthroughExchanger mem_mgr local_exchange_source));
    pred_operators_list' ← gather_append_sinks pseudo_plan_node_id exchanger
                                               pred_operators_list;
    dop ← context_degree_of_parallelism;
    set_degree_of_parallelism local_exchange_source dop;;
    mret ([local_exchange_source], pred_operators_list').

(** What a call allocated and what it sealed: the objects beyond the old
    end of the store, and the pipelines beyond the old end of the result
    list. *)
Definition created (w w' : World) : list Object :=
  drop (length (objects w)) (objects w').

Definition sealed (w w' : World) : list Pipeline :=
  drop (length (_pipelines (context w))) (_pipelines (context w')).

(** The outcome [r] of a call on [w] that interposed one exchange behind
    [pred_operators]: the call returned; the store is the old one followed
    by exactly four new objects, a memory manager constructed with
    [max_row_count], the exchange source with parallelism [new_dop] and the
    runtime state set, one exchanger of the kind [make_exchanger] bound to
    that manager and that source, and a sink on that exchanger; the sink was
    appended to [pred_operators] and the extended sequence was sealed as the
    one new pipeline; the returned sequence holds the source alone. *)
Definition interpolated (make_exchanger : ptr → ptr → Exchanger)
    (max_row_count new_dop : Z) (state : RuntimeState)
    (pred_operators : OpFactories) (w : World)
    (r : Result (OpFactories * OpFactories)) : Prop :=
  ∃ (w' : World) (source_id sink_id plan_node_id : Z),
    let mem_mgr := length (objects w) in
    let source := (mem_mgr + 1)%nat in
    let exchanger := (mem_mgr + 2)%nat in
    let sink := (mem_mgr + 3)%nat in
    r = Ok ([source], pred_operators ++ [sink]) w' ∧
    objects w' =
      objects w ++
      [ObjMemoryManager max_row_count;
       ObjFactory (LocalExchangeSourceOperatorFactory source_id plan_node_id mem_mgr
                                                      (Some state) new_dop);
       ObjExchanger (make_exchanger mem_mgr source);
       ObjFactory (LocalExchangeSinkOperatorFactory sink_id plan_node_id exchanger)] ∧
    _pipelines (context w') =
      _pipelines (context w) ++ [mkPipeline (pred_operators ++ [sink])] ∧
    _degree_of_parallelism (context w') = _degree_of_parallelism (context w).

(** The outcome [r] of a call on [w] that gathered the predecessors
    [pred_operators_list] behind one shared exchange: the store is the old
    one followed by one memory manager constructed with [max_row_count], the
    exchange source at the parallelism of the builder context, one
    passthrough exchanger, and then one sink per predecessor, every one on
    that same exchanger; each predecessor got its sink appended and was
    sealed, in order, as a pipeline of its own; the returned sequence holds
    the source alone. *)
Definition gathered (max_row_count : Z) (state : RuntimeState)
    (pred_operators_list : list OpFactories) (w : World)
    (r : Result (OpFactories * list OpFactories)) : Prop :=
  ∃ (w' : World) (source_id plan_node_id : Z) (sink_ids : list Z),
    let mem_mgr := length (objects w) in
    let source := (mem_mgr + 1)%nat in
    let exchanger := (mem_mgr + 2)%nat in
    let sink := λ i : nat, (mem_mgr + 3 + i)%nat in
    let pred_operators_list' :=
      imap (λ i pred_operators, pred_operators ++ [sink i]) pred_operators_list in
    length sink_ids = length pred_operators_list ∧
    r = Ok ([source], pred_operators_list') w' ∧
    objects w' =
      objects w ++
      [ObjMemoryManager max_row_count;
       ObjFactory (LocalExchangeSourceOperatorFactory source_id plan_node_id mem_mgr
                     (Some state) (_degree_of_parallelism (context w)));
       ObjExchanger (PassthroughExchanger mem_mgr source)] ++
      map (λ sink_id,
             ObjFactory (LocalExchangeSinkOperatorFactory sink_id plan_node_id exchanger))
          sink_ids ∧
    _pipelines (context w') =
      _pipelines (context w) ++ map mkPipeline pred_operators_list' ∧
    _degree_of_parallelism (context w') = _degree_of_parallelism (context w).

(** The budget the gather loop adds up: for every predecessor its
    parallelism times the rows of a chunk. *)
Definition gather_budget (rows : Z) (dops : list Z) : Z :=
  foldr (λ dop acc, dop * rows + acc) 0 dops.

(** The sequence [pred_operators] begins with a source factory of
    parallelism [dop]. *)
Definition begins_with_source (w : World) (pred_operators : OpFactories) (dop : Z)
    : Prop :=
  ∃ front rest f,
    pred_operators = front :: rest ∧
    objects w !! front = Some (ObjFactory f) ∧
    degree_of_parallelism f = Some dop.

(** The three ways an interpolation can end: in a fault, with its input
    returned and the world as it was, or with one exchange interposed. *)
Definition interpolation_outcome (state : RuntimeState) (pred_operators : OpFactories)
    (w : World) (r : Result (OpFactories * OpFactories)) : Prop :=
  (∃ e, r = Failed e) ∨
  r = Ok (pred_operators, pred_operators) w ∨
  (∃ make_exchanger max_row_count new_dop,
     interpolated make_exchanger max_row_count new_dop state pred_operators w r).

(** Some interpolation on [pred_operators] in [w] returned the sequence
    [result], leaving the sequence passed by reference as [pred_operators']
    and the world as [w']. *)
Inductive interpolation_returns (state : RuntimeState) (pred_operators : OpFactories)
    (w : World) (result pred_operators' : OpFactories) (w' : World) : Prop :=
| passthrough_returns (num_receivers : Z) :
    maybe_interpolate_local_passthrough_exchange state pred_operators num_receivers w
      = Ok (result, pred_operators') w' →
    interpolation_returns state pred_operators w result pred_operators' w'
| broadcast_returns (num_receivers : Z) :
    maybe_interpolate_local_broadcast_exchange state pred_operators num_receivers w
      = Ok (result, pred_operators') w' →
    interpolation_returns state pred_operators w result pred_operators' w'
| shuffle_returns (partition_expr_ctxs : list ptr) (part_type : Z) :
    maybe_interpolate_local_shuffle_exchange state pred_operators partition_expr_ctxs
                                             part_type w
      = Ok (result, pred_operators') w' →
    interpolation_returns state pred_operators w result pred_operators' w'.

(** The world [w'] is [w] with objects and sealed pipelines added at the
    end: what [w] held is still there, unchanged and at the same place, and
    the parallelism of the builder context is the same. *)
Definition extends (w w' : World) : Prop :=
  objects w' = objects w ++ created w w' ∧
  _pipelines (context w') = _pipelines (context w) ++ sealed w w' ∧
  _degree_of_parallelism (context w') = _degree_of_parallelism (context w).

(** The object at [p] is a local exchange sink factory. *)
Definition is_sink_at (w : World) (p : ptr) : Prop :=
  ∃ id plan_node_id exchanger,
    objects w !! p =
      Some (ObjFactory (LocalExchangeSinkOperatorFactory id plan_node_id exchanger)).

(** The pipeline begins with a source factory and ends with a local
    exchange sink. *)
Definition source_first_sink_last (w : World) (pipe : Pipeline) : Prop :=
  (∃ dop, begins_with_source w (pipeline_op_factories pipe) dop) ∧
  (∃ init sink, pipeline_op_factories pipe = init ++ [sink] ∧ is_sink_at w sink).

End WithEnv.

(** A concrete environment for running the builder: operator ids count up
    from the first component, pseudo plan-node ids count down from the
    second, [DCHECK] is compiled in, and a new source factory has
    parallelism 1. *)
Definition counting_env : BuilderEnv :=
  mkBuilderEnv (Z * Z)
    (λ g, (fst g, (fst g + 1, snd g)))
    (λ g, (snd g, (fst g, snd g - 1)))
    true 1.

(** A store holding planner-made sources of the parallelisms [dops], at
    the addresses 0, 1, ..., and the context of a builder with parallelism
    [dop] that has sealed nothing yet. *)
Definition scans_world (dops : list Z) (dop : Z) : @World counting_env :=
  @mkWorld counting_env
    (imap (λ i d, ObjFactory (PlanSourceOperatorFactory (Z.of_nat i) (Z.of_nat i) d)) dops)
    (@mkContext counting_env [] (100, -1) dop).

(** A store holding one factory that is no source, at address 0. *)
Definition filter_world : @World counting_env :=
  @mkWorld counting_env [ObjFactory (PlanOperatorFactory 0 0)]
           (@mkContext counting_env [] (100, -1) 1).

(** A runtime state with chunks of 4096 rows. *)
Definition rows4096 : RuntimeState := mkRuntimeState 4096.

End Builder.


(** * Properties *)

(** ** Machine integers *)

Module CIntFacts.

Import CInt.

Lemma in_intb_spec z : in_intb z = true <-> in_int z.
Proof. unfold in_intb, in_int. rewrite andb_true_iff. lia. Qed.

Lemma to_size_t_id z : in_size_t z -> to_size_t z = z.
Proof. unfold in_size_t, to_size_t. intros H. apply Z.mod_small. lia. Qed.

Lemma to_int_id z : in_int z -> to_int z = z.
Proof.
  unfold in_int, to_int, INT_MIN, INT_MAX. intros H.
  rewrite Z.mod_small; lia.
Qed.

Lemma int_mul_ok a b : in_int (a * b) -> int_mul a b = Some (a * b).
Proof.
  intros H. unfold int_mul. apply in_intb_spec in H. now rewrite H.
Qed.

Lemma in_int_size_t z : 0 <= z -> in_int z -> in_size_t z.
Proof. unfold in_int, in_size_t, INT_MAX, SIZE_MOD. lia. Qed.

Lemma size_sub_one n : 1 <= n < SIZE_MOD -> size_sub n 1 = n - 1.
Proof.
  intros H. unfold size_sub. apply to_size_t_id. unfold in_size_t. lia.
Qed.

End CIntFacts.

(** ** The fragment context *)

Module FragmentCtxFacts.

Import FragmentCtx.

Lemma with_num_drivers_twice a b c :
  with_num_drivers a (with_num_drivers b c) = with_num_drivers a c.
Proof. reflexivity. Qed.

Lemma count_down_drivers_eq c :
  1 <= _num_drivers c < CInt.SIZE_MOD ->
  count_down_drivers c =
    (_num_drivers c =? 1, with_num_drivers (_num_drivers c - 1) c).
Proof.
  intros H. unfold count_down_drivers, num_drivers_fetch_sub.
  now rewrite CIntFacts.size_sub_one.
Qed.


Lemma count_down_all_eq callers : forall c,
  Z.of_nat (length callers) <= _num_drivers c < CInt.SIZE_MOD ->
  count_down_all callers c =
    (imap (nth_count_down (_num_drivers c)) callers,
     with_num_drivers (_num_drivers c - Z.of_nat (length callers)) c).
Proof.
  induction callers as [|t rest IH]; intros c H.
  - cbn. rewrite Z.sub_0_r. now destruct c.
  - cbn [count_down_all length] in *.
    rewrite count_down_drivers_eq by lia.
    rewrite IH by (cbn; lia). cbn [_num_drivers with_num_drivers].
    rewrite with_num_drivers_twice. cbn [imap]. f_equal.
    + f_equal.
      * unfold nth_count_down. cbn. now rewrite Z.sub_0_r.
      * apply imap_ext. intros i x _. unfold nth_count_down, compose.
        now replace (_num_drivers c - Z.of_nat (S i))
          with (_num_drivers c - 1 - Z.of_nat i) by lia.
    + f_equal. lia.
Qed.

Lemma imap_nth_count_down_false n callers :
  Z.of_nat (length callers) < n ->
  Forall (fun e => cd_returned e = false) (imap (nth_count_down n) callers).
Proof.
  intros H. apply Forall_forall. intros e He.
  apply elem_of_lookup_imap in He as (i & t & -> & Hi).
  apply lookup_lt_Some in Hi. cbn. apply Z.eqb_neq. lia.
Qed.

Lemma filter_all_false (l : list CountDown) :
  Forall (fun e => cd_returned e = false) l ->
  filter (fun e => cd_returned e = true) l = [].
Proof.
  induction 1 as [|e l He _ IH]; [reflexivity|].
  rewrite filter_cons_False by congruence. exact IH.
Qed.

Lemma count_down_all_callers callers : forall c,
  map cd_caller (fst (count_down_all callers c)) = callers.
Proof.
  induction callers as [|t rest IH]; intros c; [reflexivity|].
  cbn [count_down_all]. destruct (count_down_drivers c) as [r c1].
  specialize (IH c1). destruct (count_down_all rest c1) as [evs c2].
  cbn in *. now f_equal.
Qed.

Lemma count_down_all_returned callers : forall c e,
  e ∈ fst (count_down_all callers c) ->
  cd_returned e = (cd_observed e =? 1).
Proof.
  induction callers as [|t rest IH]; intros c e He; cbn [count_down_all] in He.
  - inversion He.
  - destruct (count_down_drivers c) as [r c1] eqn:Hcd.
    specialize (IH c1). destruct (count_down_all rest c1) as [evs c2].
    cbn in *. apply elem_of_cons in He as [->|He]; [|now apply IH].
    cbn. unfold count_down_drivers, num_drivers_fetch_sub in Hcd.
    now inversion Hcd.
Qed.

(** C1.  Let [set_drivers] install [N >= 1] drivers, so that the counter
    is [N], and let [N] invocations of [count_down_drivers] follow, their
    atomic decrements taking effect in any order [callers].  Then exactly
    one invocation returns [true]; it is the last one to take effect, the
    one that observes the counter at 1, and all the others return [false].
    An invocation returns [true] if and only if it observed 1, and the
    counter ends at zero. *)
Theorem count_down_drivers_exactly_one
    (drivers : list DriverPtr) (callers : list nat) (c : FragmentContext) :
  1 <= vector_size drivers < CInt.SIZE_MOD ->
  Z.of_nat (length callers) = vector_size drivers ->
  let run := count_down_all callers (set_drivers drivers c) in
  map cd_caller (fst run) = callers /\
  length (filter (fun e => cd_returned e = true) (fst run)) = 1%nat /\
  (forall e, e ∈ fst run -> cd_returned e = true <-> cd_observed e = 1) /\
  (exists before winner,
      fst run = before ++ [winner] /\
      cd_returned winner = true /\ cd_observed winner = 1 /\
      Forall (fun e => cd_returned e = false) before) /\
  _num_drivers (snd run) = 0.
Proof.
  intros HN Hlen run.
  assert (Hctr : _num_drivers (set_drivers drivers c) = vector_size drivers)
    by reflexivity.
  assert (Hlast : exists before winner,
      fst run = before ++ [winner] /\
      cd_returned winner = true /\ cd_observed winner = 1 /\
      Forall (fun e => cd_returned e = false) before).
  { subst run. rewrite count_down_all_eq by (rewrite Hctr; lia).
    rewrite Hctr. cbn [fst].
    destruct callers as [|t0 rest0] using rev_ind; [cbn in Hlen; lia|].
    clear IHrest0. rewrite length_app in Hlen. cbn in Hlen.
    rewrite imap_app. cbn [imap].
    eexists _, _. split; [reflexivity|].
    split; [|split].
    - cbn. apply Z.eqb_eq. lia.
    - cbn. lia.
    - apply imap_nth_count_down_false. lia. }
  split; [apply count_down_all_callers|].
  split; [|split; [|split; [exact Hlast|]]].
  - destruct Hlast as (before & winner & -> & Hw & _ & Hb).
    rewrite filter_app, filter_all_false by exact Hb.
    rewrite filter_cons_True by exact Hw. reflexivity.
  - intros e He. rewrite (count_down_all_returned _ _ _ He). apply Z.eqb_eq.
  - subst run. rewrite count_down_all_eq by (rewrite Hctr; lia).
    cbn [snd]. rewrite Hctr. cbn. lia.
Qed.

Lemma count_down_drivers_exactly_one_witness :
  let run := count_down_all [7; 3; 5]%nat
               (set_drivers [10; 11; 12]%nat (new_FragmentContext garbage)) in
  map cd_caller (fst run) = [7; 3; 5]%nat /\
  length (filter (fun e => cd_returned e = true) (fst run)) = 1%nat /\
  (forall e, e ∈ fst run -> cd_returned e = true <-> cd_observed e = 1) /\
  (exists before winner,
      fst run = before ++ [winner] /\
      cd_returned winner = true /\ cd_observed winner = 1 /\
      Forall (fun e => cd_returned e = false) before) /\
  _num_drivers (snd run) = 0.
Proof.
  apply (count_down_drivers_exactly_one [10; 11; 12]%nat [7; 3; 5]%nat
           (new_FragmentContext garbage)).
  - vm_compute. split; [discriminate | reflexivity].
  - reflexivity.
Defined.

(** *** The final-status latch *)

(** The test after a successful compare-and-swap dereferences
    [&_s_status], never null. *)
Lemma set_final_status_deref c :
  _final_status c = nullptr ->
  let c1 := snd (final_status_compare_exchange_strong nullptr addr_s_status c) in
  fst (final_status_compare_exchange_strong nullptr addr_s_status c) = true /\
  deref (_final_status c1) c1 = Some (_s_status c).
Proof.
  intros H. unfold final_status_compare_exchange_strong. rewrite H.
  cbn. now destruct c.
Qed.

(** What a call that finds the slot empty does: it latches [&_s_status],
    stores its argument last, and the log line it may write depends on, and
    shows, the content [_s_status] had before the call. *)
Lemma set_final_status_unlatched status c :
  _final_status c = nullptr ->
  set_final_status status c =
    with_s_status status
      (with_warnings
         (warnings c ++
          (if is_cancelled (_s_status c)
           then [mkLog (_query_id c) (_fragment_instance_id c) (_s_status c)]
           else []))
         (with_final_status addr_s_status c)).
Proof.
  intros H. unfold set_final_status, final_status_compare_exchange_strong.
  rewrite H. destruct c as [q i rp fp ps ds n fs cf ss rg ws]. cbn in *.
  destruct (is_cancelled ss); cbn; [reflexivity|].
  now rewrite app_nil_r.
Qed.

(** A call that finds anything but null in the slot returns at once. *)
Lemma set_final_status_set status c :
  _final_status c <> nullptr -> set_final_status status c = c.
Proof.
  intros H. unfold set_final_status. now destruct (_final_status c).
Qed.


Lemma final_status_latched c :
  _final_status c = addr_s_status -> final_status c = Some (_s_status c).
Proof. intros H. unfold final_status. now rewrite H. Qed.


Lemma set_final_status_latches status c :
  _final_status c = nullptr ->
  _final_status (set_final_status status c) = addr_s_status.
Proof. intros H. now rewrite set_final_status_unlatched. Qed.

(** After a call the slot is never null. *)
Lemma set_final_status_not_null status c :
  _final_status (set_final_status status c) <> nullptr.
Proof.
  destruct (_final_status c) eqn:H.
  - now rewrite set_final_status_latches.
  - rewrite set_final_status_set; now rewrite H.
  - rewrite set_final_status_set; now rewrite H.
Qed.

Lemma set_final_status_cancel_flag status c :
  _cancel_flag (set_final_status status c) = _cancel_flag c.
Proof.
  destruct (_final_status c) eqn:H.
  - now rewrite set_final_status_unlatched.
  - rewrite set_final_status_set; [reflexivity|now rewrite H].
  - rewrite set_final_status_set; [reflexivity|now rewrite H].
Qed.







(** *** Racing calls of [set_final_status] *)

(** A call that takes its four steps without interruption is the function
    [set_final_status]; its compare-and-swap has succeeded exactly when it
    found the slot null. *)
Lemma call_alone status c :
  run_schedule [0; 0; 0; 0]%nat ([mkCall status AtCheck false], c)
    = ([mkCall status Returned (bool_decide (_final_status c = nullptr))],
       set_final_status status c).
Proof.
  destruct c as [q i rp fp ps ds n fs cf ss rg ws].
  destruct fs; [|reflexivity|reflexivity].
  unfold set_final_status. cbn. now destruct (is_cancelled ss).
Qed.

Lemma thread_step_statuses i ks c :
  map call_status (thread_step i (ks, c)).1 = map call_status ks.
Proof.
  unfold thread_step. cbn [fst snd].
  destruct (ks !! i) as [k|] eqn:Hk; [|reflexivity].
  assert (Hs : call_status (call_step k c).1 = call_status k).
  { unfold call_step. destruct (call_pc k); cbn; try reflexivity.
    - now destruct (_final_status c).
    - now destruct (final_status_compare_exchange_strong nullptr addr_s_status c). }
  destruct (call_step k c) as [k' c']. cbn [fst] in *.
  rewrite list_fmap_insert, Hs.
  apply list_insert_id. now rewrite list_lookup_fmap, Hk.
Qed.

Lemma thread_step_inv i ks c :
  race_inv ks c -> race_inv (thread_step i (ks, c)).1 (thread_step i (ks, c)).2.
Proof.
  intros Hinv. unfold thread_step. cbn [fst snd].
  destruct (ks !! i) as [k|] eqn:Hk; [|exact Hinv].
  pose proof (lookup_lt_Some _ _ _ Hk) as Hlt.
  destruct Hinv as [[Hnull Hall]|[w (Haddr & (kw & Hkw & Hsw & Hpc) & Hothers)]].
  - (* no winner yet *)
    pose proof (proj1 (Forall_lookup _ _) Hall i k Hk) as [[Hpc|Hpc] Hsw];
      unfold call_step; rewrite Hpc.
    + rewrite Hnull. cbn [fst snd]. left. split; [exact Hnull|].
      apply Forall_insert; [exact Hall|]. split; [now right|exact Hsw].
    + unfold final_status_compare_exchange_strong. rewrite Hnull. cbn [fst snd].
      right. exists i. split; [now destruct c|]. split.
      * eexists. split; [now apply list_lookup_insert_eq|].
        split; [reflexivity|now left].
      * intros j k' Hne Hj. rewrite list_lookup_insert_ne in Hj by congruence.
        destruct (proj1 (Forall_lookup _ _) Hall j k' Hj) as [Hp Hs].
        split; [exact Hs|tauto].
  - (* thread w has won *)
    destruct (decide (i = w)) as [->|Hne].
    + rewrite Hk in Hkw. inversion Hkw; subst kw.
      unfold call_step.
      destruct Hpc as [Hpc|[Hpc|[Hpc Hst]]]; rewrite Hpc; cbn [fst snd].
      * right. exists w. split; [|split].
        -- destruct (deref _ c) as [s|]; [|exact Haddr].
           destruct (is_cancelled s); [|exact Haddr].
           destruct (final_status c); [now destruct c|exact Haddr].
        -- eexists. split; [now apply list_lookup_insert_eq|].
           split; [exact Hsw|]. now right; left.
        -- intros j k' Hj Hl. rewrite list_lookup_insert_ne in Hl by congruence.
           now apply (Hothers j).
      * right. exists w. split; [now destruct c|]. split.
        -- eexists. split; [now apply list_lookup_insert_eq|].
           split; [exact Hsw|].
           right; right. split; [reflexivity|now destruct c].
        -- intros j k' Hj Hl. rewrite list_lookup_insert_ne in Hl by congruence.
           now apply (Hothers j).
      * right. exists w. rewrite list_insert_id by exact Hk.
        split; [exact Haddr|]. split; [|exact Hothers].
        exists k. split; [exact Hk|]. split; [exact Hsw|]. right; right. now split.
    + assert (Hstep : (call_step k c).2 = c /\
                      call_pc (call_step k c).1 = Returned /\
                      call_swapped (call_step k c).1 = false).
      { unfold call_step, final_status_compare_exchange_strong.
        destruct (Hothers i k Hne Hk) as [Hs [Hi|[Hi|Hi]]]; rewrite Hi;
          [rewrite Haddr; now repeat split|rewrite Haddr; now repeat split
          |now repeat split]. }
      destruct (call_step k c) as [k' c']. cbn [fst snd] in *.
      destruct Hstep as (-> & Hret & Hsw').
      right. exists w. split; [exact Haddr|]. split.
      * exists kw. split; [|now split].
        rewrite list_lookup_insert_ne by congruence. exact Hkw.
      * intros j kj Hj Hl.
        destruct (decide (j = i)) as [->|Hji].
        -- rewrite list_lookup_insert_eq in Hl by exact Hlt.
           inversion Hl; subst. tauto.
        -- rewrite list_lookup_insert_ne in Hl by congruence.
           now apply (Hothers j).
Qed.

Lemma run_schedule_inv sched : forall ks c,
  race_inv ks c ->
  race_inv (run_schedule sched (ks, c)).1 (run_schedule sched (ks, c)).2 /\
  map call_status (run_schedule sched (ks, c)).1 = map call_status ks.
Proof.
  induction sched as [|i sched IH]; intros ks c Hinv; [now split|].
  change (run_schedule (i :: sched) (ks, c))
    with (run_schedule sched (thread_step i (ks, c))).
  pose proof (thread_step_inv i ks c Hinv) as Hinv'.
  pose proof (thread_step_statuses i ks c) as Hst.
  destruct (thread_step i (ks, c)) as [ks' c']. cbn [fst snd] in *.
  destruct (IH ks' c' Hinv') as [H1 H2]. split; [exact H1|congruence].
Qed.

(** Every step of a call brings it closer to its return. *)
Lemma call_step_left k c :
  (steps_left (call_pc (call_step k c).1) <= pred (steps_left (call_pc k)))%nat.
Proof.
  unfold call_step. destruct (call_pc k) eqn:Hpc; cbn.
  - destruct (_final_status c); cbn; lia.
  - destruct (final_status_compare_exchange_strong nullptr addr_s_status c)
      as [[] c1]; cbn; lia.
  - lia.
  - lia.
  - rewrite Hpc. cbn. lia.
Qed.

Lemma thread_step_left i ks c j k' :
  (thread_step i (ks, c)).1 !! j = Some k' ->
  exists k, ks !! j = Some k /\
    (steps_left (call_pc k') <=
       if decide (j = i) then pred (steps_left (call_pc k))
       else steps_left (call_pc k))%nat.
Proof.
  unfold thread_step. cbn [fst snd].
  destruct (ks !! i) as [ki|] eqn:Hi.
  - pose proof (call_step_left ki c) as Hle.
    destruct (call_step ki c) as [ki' c']. cbn [fst] in *.
    intros Hj. destruct (decide (j = i)) as [->|Hne].
    + rewrite list_lookup_insert_eq in Hj by (eapply lookup_lt_Some; exact Hi).
      inversion Hj; subst. exists ki. split; [exact Hi|exact Hle].
    + rewrite list_lookup_insert_ne in Hj by congruence.
      exists k'. split; [exact Hj|lia].
  - cbn. intros Hj. exists k'. split; [exact Hj|].
    destruct (decide (j = i)) as [->|]; [congruence|lia].
Qed.

Lemma run_schedule_left sched : forall ks c j k',
  (run_schedule sched (ks, c)).1 !! j = Some k' ->
  exists k, ks !! j = Some k /\
    (steps_left (call_pc k') <=
       steps_left (call_pc k) - length (filter (eq j) sched))%nat.
Proof.
  induction sched as [|i sched IH]; intros ks c j k' Hj.
  - exists k'. split; [exact Hj|cbn; lia].
  - change (run_schedule (i :: sched) (ks, c))
      with (run_schedule sched (thread_step i (ks, c))) in Hj.
    destruct (thread_step i (ks, c)) as [ks1 c1] eqn:Hstep.
    destruct (IH ks1 c1 j k' Hj) as (k1 & Hk1 & Hle1).
    assert (Hk1' : (thread_step i (ks, c)).1 !! j = Some k1) by now rewrite Hstep.
    destruct (thread_step_left i ks c j k1 Hk1') as (k & Hk & Hle).
    exists k. split; [exact Hk|].
    rewrite filter_cons. destruct (decide (j = i)) as [Heq|Hne]; cbn [length]; lia.
Qed.

(** X3.  Calls of [set_final_status] that race on a context whose slot is
    null, under any schedule.  The calls keep their arguments.  If the
    schedule gives every call at least four turns, all of them have
    returned.  And once all of them have returned, the compare-and-swap of
    exactly one of them has succeeded, that of thread [i], and of no other;
    the slot holds [&_s_status], the status stored there is the argument of
    thread [i], and that is what [final_status()] returns. *)
Theorem racing_set_final_status (args : list Status) (sched : list nat)
    (c : FragmentContext) :
  _final_status c = nullptr ->
  args <> [] ->
  let st := run_schedule sched (calls_of args, c) in
  map call_status st.1 = args /\
  (gives_four_turns (length args) sched ->
   Forall (fun k => call_pc k = Returned) st.1) /\
  (Forall (fun k => call_pc k = Returned) st.1 ->
   exists i s,
     args !! i = Some s /\
     (forall j k, st.1 !! j = Some k -> call_swapped k = true <-> j = i) /\
     _final_status st.2 = addr_s_status /\
     _s_status st.2 = s /\
     final_status st.2 = Some s).
Proof.
  intros Hnull Hargs st.
  assert (Hinit : race_inv (calls_of args) c).
  { left. split; [exact Hnull|]. unfold calls_of.
    apply Forall_fmap, Forall_true. intros s. split; [now left|reflexivity]. }
  destruct (run_schedule_inv sched _ _ Hinit) as [Hinv Hst].
  fold st in Hinv, Hst.
  assert (Hargs' : map call_status (calls_of args) = args).
  { unfold calls_of. rewrite <- list_fmap_compose.
    change (map (call_status ∘ _) args) with (id <$> args). apply list_fmap_id. }
  rewrite Hargs' in Hst. split; [exact Hst|]. split.
  - intros Hfair. apply Forall_lookup. intros j k' Hj.
    destruct (run_schedule_left sched _ _ _ _ Hj) as (k & Hk & Hle).
    assert (Hlt : (j < length args)%nat).
    { apply lookup_lt_Some in Hk. unfold calls_of in Hk.
      now rewrite length_map in Hk. }
    specialize (Hfair j Hlt).
    assert (Hfour : (steps_left (call_pc k) <= 4)%nat) by (destruct (call_pc k); cbn; lia).
    destruct (call_pc k'); cbn in Hle; solve [reflexivity|lia].
  - intros Hret. destruct Hinv as [[_ Hall]|[i Hw]].
    + exfalso.
      assert (Hsome : is_Some (st.1 !! 0%nat)).
      { apply lookup_lt_is_Some. rewrite <- (length_map call_status), Hst.
        destruct args; [contradiction|cbn; lia]. }
      destruct Hsome as [k Hk].
      pose proof (proj1 (Forall_lookup _ _) Hret _ _ Hk) as Hr.
      destruct (proj1 (Forall_lookup _ _) Hall _ _ Hk) as [[H|H] _]; congruence.
    + destruct Hw as (Haddr & (k & Hk & Hsw & Hpc) & Hothers).
      pose proof (proj1 (Forall_lookup _ _) Hret i k Hk) as Hr.
      destruct Hpc as [Hpc|[Hpc|[_ Hs]]]; try congruence.
      exists i, (call_status k). split; [|split; [|split; [exact Haddr|split]]].
      * rewrite <- Hst, list_lookup_fmap, Hk. reflexivity.
      * intros j kj Hj. split.
        -- intros Hswj. destruct (decide (j = i)) as [E|Hne]; [exact E|].
           destruct (Hothers j kj Hne Hj) as [Hf _]. congruence.
        -- intros ->. congruence.
      * exact Hs.
      * rewrite final_status_latched by exact Haddr. now rewrite Hs.
Qed.

(** *** The diagnostic of [set_final_status] *)

(** C5.  The code at the inputs where it departs from the claim.  Take a
    new context, whatever its storage held, and attach drivers, which sets
    the slot to null.  [set_final_status(Cancelled "new")] then wins the
    latch with a cancellation and writes no diagnostic at all.  After
    [set_final_status(Cancelled "old")] and [set_drivers], which empties the
    slot but leaves [_s_status], [set_final_status(Cancelled "new")] wins
    the latch and stores "new", and the one diagnostic it writes reports
    "old": the test and the log line read [_s_status] before the
    assignment [_s_status = status]. *)
Theorem set_final_status_logs_before_store
    (raw : Indeterminate) (drivers : list DriverPtr) :
  let fresh := set_drivers drivers (new_FragmentContext raw) in
  let won := set_final_status (Status_Cancelled "new") fresh in
  let rearmed :=
    set_drivers drivers (set_final_status (Status_Cancelled "old") fresh) in
  let won' := set_final_status (Status_Cancelled "new") rearmed in
  (final_status won = Some (Status_Cancelled "new") /\ warnings won = []) /\
  (_final_status rearmed = nullptr /\ warnings rearmed = [] /\
   final_status won' = Some (Status_Cancelled "new") /\
   map log_reason (warnings won') = [Status_Cancelled "old"]).
Proof. cbv zeta. repeat split. Qed.

(** *** The cancel flag *)

Lemma apply_op_cancel_flag o c :
  _cancel_flag c = true -> _cancel_flag (apply_op o c) = true.
Proof.
  intros H. destruct o; cbn [apply_op]; try exact H.
  - now rewrite set_final_status_cancel_flag.
  - unfold cancel. now rewrite set_final_status_cancel_flag.
  - unfold finish, cancel. now rewrite set_final_status_cancel_flag.
  - now destruct (promise_set_value (_finish_promise c)).
Qed.

Lemma apply_ops_cancel_flag os : forall c,
  _cancel_flag c = true -> _cancel_flag (apply_ops os c) = true.
Proof.
  induction os as [|o os IH]; intros c H; [exact H|].
  change (apply_ops (o :: os) c) with (apply_ops os (apply_op o c)).
  apply IH. now apply apply_op_cancel_flag.
Qed.

Lemma cancel_sets_flag status c : _cancel_flag (cancel status c) = true.
Proof. unfold cancel. now rewrite set_final_status_cancel_flag. Qed.

(** C9.  The cancel flag is monotone.  After [cancel(status)], and after
    [finish()], which is [cancel(OK)], [is_canceled()] is true on any
    context, whether or not a final status was latched, and it stays true
    through any further operations.  A second [cancel] leaves the flag as
    the first set it.  On a context on which a final status is latched
    (here by [set_final_status(latched)]), [cancel] sets the flag and the
    latched status is unchanged. *)
Theorem cancel_flag_monotone
    (c : FragmentContext) (status status' latched : Status) (later : list Op) :
  is_canceled (cancel status c) = true /\
  is_canceled (apply_ops later (cancel status c)) = true /\
  finish c = cancel Status_OK c /\
  is_canceled (apply_ops later (finish c)) = true /\
  _cancel_flag (cancel status' (cancel status c)) = _cancel_flag (cancel status c) /\
  (let c1 := set_final_status latched c in
   is_canceled (cancel status c1) = true /\
   final_status (cancel status c1) = final_status c1 /\
   _s_status (cancel status c1) = _s_status c1).
Proof.
  unfold is_canceled.
  rewrite !apply_ops_cancel_flag by apply cancel_sets_flag.
  rewrite !cancel_sets_flag.
  repeat split.
  - unfold cancel at 1.
    rewrite set_final_status_set; [reflexivity|].
    apply set_final_status_not_null.
  - unfold cancel at 1.
    rewrite set_final_status_set; [reflexivity|].
    apply set_final_status_not_null.
Qed.

End FragmentCtxFacts.

(** ** The fragment context manager *)

Module FragmentMgrFacts.

Import FragmentCtx FragmentMgr.

Lemma promise_set_value_pending p :
  promise_satisfied p = false ->
  promise_set_value p = Some (mkPromise true (future_retrieved p)).
Proof. intros H. unfold promise_set_value. now rewrite H. Qed.


Lemma unregister_present id l c s :
  _fragment_contexts s !! id = Some (Some l) ->
  ctx_heap s !! l = Some c ->
  promise_satisfied (_finish_promise c) = false ->
  unregister id s = Returns () (unregistered id l c s).
Proof.
  intros Hid Hl Hp. unfold unregister.
  now rewrite Hid, Hl, promise_set_value_pending.
Qed.

Lemma unregister_absent id s :
  _fragment_contexts s !! id = None -> unregister id s = Returns () s.
Proof. intros H. unfold unregister. now rewrite H. Qed.






Lemma registered_pending_live s : registered_pending s -> registered_live s.
Proof.
  intros Hp id p H. destruct (Hp id p H) as (l & c & -> & Hl & _). eauto.
Qed.



(** *** The hypothesis of C10 along executions *)

Lemma well_formed_empty : well_formed empty_manager.
Proof.
  split.
  - intros id p H. cbn in H. now rewrite lookup_empty in H.
  - intros id1 id2 p H. cbn in H. now rewrite lookup_empty in H.
Qed.

Lemma get_or_register_well_formed id raw s :
  well_formed s ->
  exists p s', get_or_register id raw s = Returns p s' /\ well_formed s' /\
               _fragment_contexts s' !! id = Some p.
Proof.
  intros [Hp Ho]. unfold get_or_register.
  destruct (_fragment_contexts s !! id) as [p|] eqn:Hid.
  - exists p, s. now repeat split.
  - eexists _, _. split; [reflexivity|]. split; [split|].
    + intros id' p' H. cbn in *.
      apply lookup_insert_Some in H as [[<- <-]|[Hne H]].
      * eexists _, _. split; [reflexivity|].
        split; [now apply list_lookup_middle|reflexivity].
      * destruct (Hp id' p' H) as (l & c & -> & Hl & Hc).
        exists l, c. split; [reflexivity|]. split; [|exact Hc].
        rewrite lookup_app_l; [exact Hl|]. eapply lookup_lt_Some, Hl.
    + intros id1 id2 p' H1 H2. cbn in *.
      apply lookup_insert_Some in H1 as [[<- <-]|[Hne1 H1]];
        apply lookup_insert_Some in H2 as [[<- E]|[Hne2 H2]]; try reflexivity.
      * destruct (Hp _ _ H2) as (l & c & E & Hl & _). inversion E; subst.
        apply lookup_lt_Some in Hl. lia.
      * destruct (Hp _ _ H1) as (l & c & E' & Hl & _). subst p'.
        inversion E' as [E'']. rewrite <- E'' in Hl.
        apply lookup_lt_Some in Hl. lia.
      * now apply (Ho id1 id2 p').
    + cbn. apply lookup_insert_eq.
Qed.

Lemma unregister_well_formed id s :
  well_formed s ->
  exists s', unregister id s = Returns () s' /\ well_formed s' /\
             _fragment_contexts s' !! id = None.
Proof.
  intros [Hp Ho]. destruct (_fragment_contexts s !! id) as [p|] eqn:Hid.
  - destruct (Hp id p Hid) as (l & c & -> & Hl & Hc).
    exists (unregistered id l c s).
    split; [now apply unregister_present|]. split; [split|].
    + intros id' p' H. cbn in H.
      apply lookup_delete_Some in H as [Hne H].
      destruct (Hp id' p' H) as (l' & c' & -> & Hl' & Hc').
      exists l', c'. split; [reflexivity|]. split; [|exact Hc'].
      cbn. rewrite list_lookup_insert_ne; [exact Hl'|].
      intros ->. apply Hne. now apply (Ho id id' (Some l')).
    + intros id1 id2 p' H1 H2. cbn in *.
      apply lookup_delete_Some in H1 as [_ H1].
      apply lookup_delete_Some in H2 as [_ H2].
      now apply (Ho id1 id2 p').
    + cbn. apply lookup_delete_eq.
  - exists s. split; [now apply unregister_absent|]. now repeat split.
Qed.

End FragmentMgrFacts.

(** ** The pipeline builder *)

Module BuilderFacts.

Import Builder.

Section WithEnv.

Context `{Env : BuilderEnv}.

(** *** Running the primitives *)

Lemma bind_run {A B} (m : M A) (f : A -> M B) (w : World) :
  (m ≫= f) w = match m w with Ok a w' => f a w' | Failed e => Failed e end.
Proof. reflexivity. Qed.

Lemma ret_run {A} (a : A) (w : World) : mret (M := M) a w = Ok a w.
Proof. reflexivity. Qed.

Lemma degree_of_parallelism_is_source f d :
  degree_of_parallelism f = Some d -> is_source f = true.
Proof. now destruct f. Qed.

Lemma load_factory_ok p f w :
  objects w !! p = Some (ObjFactory f) -> load_factory p w = Ok f w.
Proof. intros H. unfold load_factory. now rewrite H. Qed.

Lemma vector_at_ok {A} (v : list A) i x w :
  v !! i = Some x -> vector_at v i w = Ok x w.
Proof. intros H. unfold vector_at. now rewrite H. Qed.

Lemma dcheck_nonempty_source_ok pred front f w :
  pred !! 0%nat = Some front ->
  objects w !! front = Some (ObjFactory f) ->
  is_source f = true ->
  dcheck_nonempty_source pred w = Ok () w.
Proof.
  intros Hp Hf Hs. unfold dcheck_nonempty_source.
  destruct dcheck_is_on; [|reflexivity].
  destruct pred as [|p rest]; [discriminate|]. inversion Hp; subst.
  rewrite bind_run, (load_factory_ok _ _ _ Hf). now rewrite Hs.
Qed.

Lemma down_cast_source_ok p f w :
  objects w !! p = Some (ObjFactory f) ->
  is_source f = true ->
  down_cast_source p w = Ok p w.
Proof.
  intros Hf Hs. unfold down_cast_source.
  destruct dcheck_is_on; [|reflexivity].
  rewrite bind_run, (load_factory_ok _ _ _ Hf). now rewrite Hs.
Qed.

Lemma source_degree_of_parallelism_ok p f d w :
  objects w !! p = Some (ObjFactory f) ->
  degree_of_parallelism f = Some d ->
  source_degree_of_parallelism p w = Ok d w.
Proof.
  intros Hf Hd. unfold source_degree_of_parallelism.
  rewrite bind_run, (load_factory_ok _ _ _ Hf). now rewrite Hd.
Qed.

Lemma next_operator_id_run w :
  next_operator_id w =
    Ok (gen_operator_id (_id_gen (context w))).1
       (mkWorld (objects w)
          (mkContext (_pipelines (context w))
                     (gen_operator_id (_id_gen (context w))).2
                     (_degree_of_parallelism (context w)))).
Proof.
  unfold next_operator_id. rewrite bind_run. cbn [get_world].
  now destruct (gen_operator_id (_id_gen (context w))).
Qed.

Lemma next_pseudo_plan_node_id_run w :
  next_pseudo_plan_node_id w =
    Ok (gen_pseudo_plan_node_id (_id_gen (context w))).1
       (mkWorld (objects w)
          (mkContext (_pipelines (context w))
                     (gen_pseudo_plan_node_id (_id_gen (context w))).2
                     (_degree_of_parallelism (context w)))).
Proof.
  unfold next_pseudo_plan_node_id. rewrite bind_run. cbn [get_world].
  now destruct (gen_pseudo_plan_node_id (_id_gen (context w))).
Qed.

Lemma make_shared_run o w :
  make_shared o w = Ok (length (objects w)) (mkWorld (objects w ++ [o]) (context w)).
Proof. reflexivity. Qed.

Lemma add_pipeline_run ops w :
  add_pipeline ops w =
    Ok () (mkWorld (objects w)
             (mkContext (_pipelines (context w) ++ [mkPipeline ops])
                        (_id_gen (context w))
                        (_degree_of_parallelism (context w)))).
Proof. reflexivity. Qed.

Lemma context_degree_of_parallelism_run w :
  context_degree_of_parallelism w = Ok (_degree_of_parallelism (context w)) w.
Proof. reflexivity. Qed.

Lemma set_runtime_state_ok p f st w :
  objects w !! p = Some (ObjFactory f) ->
  set_runtime_state p st w =
    Ok () (mkWorld (<[p := ObjFactory (with_runtime_state st f)]> (objects w))
                   (context w)).
Proof.
  intros Hf. unfold set_runtime_state.
  now rewrite bind_run, (load_factory_ok _ _ _ Hf).
Qed.

Lemma set_degree_of_parallelism_ok p f d w :
  objects w !! p = Some (ObjFactory f) ->
  set_degree_of_parallelism p d w =
    Ok () (mkWorld
             (<[p := ObjFactory (with_degree_of_parallelism (CInt.to_size_t d) f)]>
                (objects w))
             (context w)).
Proof.
  intros Hf. unfold set_degree_of_parallelism.
  now rewrite bind_run, (load_factory_ok _ _ _ Hf).
Qed.

Lemma run_int_mul a b w :
  CInt.in_int (a * b) -> int_mul a b w = Ok (a * b) w.
Proof.
  intros H. unfold int_mul. now rewrite CIntFacts.int_mul_ok.
Qed.

Lemma int_mul_outcomes a b w :
  (exists e, int_mul a b w = Failed e) \/ (exists z, int_mul a b w = Ok z w).
Proof.
  unfold int_mul. destruct (CInt.int_mul a b); [right|left]; eauto.
Qed.

Lemma lookup_past {A} (l k : list A) (i : nat) :
  (l ++ k) !! (length l + i)%nat = k !! i.
Proof.
  rewrite lookup_app_r by lia. f_equal. lia.
Qed.

Ltac norm :=
  cbn [objects context _pipelines _id_gen _degree_of_parallelism];
  rewrite <- ?app_assoc; cbn [app];
  rewrite ?length_app; cbn [length].

Ltac step_with lem :=
  rewrite bind_run; rewrite lem; cbv beta iota zeta; norm.

Ltac at_address :=
  rewrite lookup_past; reflexivity.

(** The steps every interpolation shares once the memory manager is
    made: the source, its runtime state, the exchanger, the sink, the
    sealing of the predecessor and the parallelism of the source. *)
Ltac run_exchange_creation :=
  step_with make_shared_run;
  step_with next_operator_id_run;
  step_with make_shared_run;
  rewrite bind_run;
  erewrite set_runtime_state_ok by (norm; at_address);
  cbv beta iota zeta; norm;
  rewrite insert_app_r; cbn [insert list_insert with_runtime_state];
  step_with make_shared_run;
  step_with next_operator_id_run;
  step_with make_shared_run;
  step_with add_pipeline_run;
  rewrite bind_run;
  erewrite set_degree_of_parallelism_ok by (norm; at_address);
  cbv beta iota zeta; norm;
  rewrite insert_app_r; cbn [insert list_insert with_degree_of_parallelism];
  rewrite ret_run.

Ltac close_interpolated :=
  eexists _, _, _, _; cbv zeta; norm;
  split; [reflexivity|]; split; [reflexivity|]; split; reflexivity.

(** *** Passthrough interpolation *)

(** C4.  Let the predecessor sequence begin with a source factory whose
    parallelism [dop] differs from [num_receivers], the values being
    receiver counts and parallelisms that an [int] holds and the budget
    one that fits an [int].  Then passthrough interpolation returns; it
    creates one memory manager with the budget
    [chunk_size * max(num_receivers, dop)], one exchange source, one
    passthrough exchanger on the two, and one sink on that exchanger;
    it appends the sink to the predecessor sequence and seals the extended
    sequence as one pipeline; and the sequence it returns holds the exchange
    source alone, with parallelism [num_receivers]. *)
Theorem passthrough_interpolates
    (state : RuntimeState) (pred : OpFactories) (num_receivers dop : Z) (w : World) :
  begins_with_source w pred dop ->
  dop <> num_receivers ->
  0 <= num_receivers ->
  CInt.in_int num_receivers ->
  0 <= dop ->
  CInt.in_int dop ->
  CInt.in_int (chunk_size state * Z.max num_receivers dop) ->
  interpolated PassthroughExchanger
    (chunk_size state * Z.max num_receivers dop) num_receivers state pred w
    (maybe_interpolate_local_passthrough_exchange state pred num_receivers w).
Proof.
  intros (front & rest & f & -> & Hf & Hd) Hne Hnr Hnri Hdop Hdopi Hmul.
  pose proof (degree_of_parallelism_is_source _ _ Hd) as Hs.
  assert (Hsz : CInt.in_size_t num_receivers)
    by now apply CIntFacts.in_int_size_t.
  unfold maybe_interpolate_local_passthrough_exchange.
  set (pred := front :: rest).
  rewrite bind_run, (dcheck_nonempty_source_ok pred front f) by easy.
  rewrite bind_run, (vector_at_ok pred 0 front) by easy.
  rewrite bind_run, (down_cast_source_ok front f) by easy.
  rewrite bind_run, (source_degree_of_parallelism_ok front f dop) by easy.
  rewrite CIntFacts.to_size_t_id by exact Hsz.
  destruct (Z.eqb_spec dop num_receivers) as [|_]; [contradiction|].
  rewrite CIntFacts.to_int_id by exact Hdopi.
  step_with next_pseudo_plan_node_id_run.
  rewrite bind_run, run_int_mul by exact Hmul.
  run_exchange_creation.
  rewrite CIntFacts.to_size_t_id by exact Hsz.
  close_interpolated.
Qed.

(** Whatever its input, passthrough interpolation stops in a fault, or
    returns its input with the world as it was, or leaves one passthrough
    exchange behind: no other kind of exchanger. *)
Lemma passthrough_outcomes state pred num_receivers w :
  let r := maybe_interpolate_local_passthrough_exchange state pred num_receivers w in
  (exists e, r = Failed e) \/
  r = Ok (pred, pred) w \/
  (exists budget,
     interpolated PassthroughExchanger budget (CInt.to_size_t num_receivers)
                  state pred w r).
Proof.
  cbv zeta. unfold maybe_interpolate_local_passthrough_exchange.
  rewrite bind_run.
  destruct (dcheck_nonempty_source pred w) as [[] w0|e] eqn:Hdc; [|left; eauto].
  assert (w0 = w) as ->.
  { unfold dcheck_nonempty_source in Hdc.
    destruct dcheck_is_on; [|now inversion Hdc].
    destruct pred as [|p rest]; [discriminate|].
    rewrite bind_run in Hdc. unfold load_factory in Hdc.
    destruct (objects w !! p) as [[| |f]|]; try discriminate.
    destruct (is_source f); [now inversion Hdc|discriminate]. }
  rewrite bind_run. unfold vector_at.
  destruct (pred !! 0%nat) as [front|]; [|left; eauto].
  rewrite ret_run, bind_run.
  destruct (down_cast_source front w) as [p w0|e] eqn:Hcast; [|left; eauto].
  assert (w0 = w) as ->.
  { unfold down_cast_source in Hcast.
    destruct dcheck_is_on; [|now inversion Hcast].
    rewrite bind_run in Hcast. unfold load_factory in Hcast.
    destruct (objects w !! front) as [[| |f]|]; try discriminate.
    destruct (is_source f); [now inversion Hcast|discriminate]. }
  rewrite bind_run.
  destruct (source_degree_of_parallelism p w) as [dop w0|e] eqn:Hdop; [|left; eauto].
  assert (w0 = w) as ->.
  { unfold source_degree_of_parallelism in Hdop.
    rewrite bind_run in Hdop. unfold load_factory in Hdop.
    destruct (objects w !! p) as [[| |f]|]; try discriminate.
    destruct (degree_of_parallelism f); [now inversion Hdop|discriminate]. }
  destruct (dop =? CInt.to_size_t num_receivers); [right; left; reflexivity|].
  step_with next_pseudo_plan_node_id_run.
  rewrite bind_run.
  match goal with |- context [int_mul ?a ?b ?w1] =>
    destruct (int_mul_outcomes a b w1) as [[e ->]|[z ->]] end; [left; eauto|].
  right; right. exists z.
  run_exchange_creation.
  close_interpolated.
Qed.

(** With a receiver count other than 1, broadcast interpolation looks at
    nothing of its input: it stops in a fault, which only the products of
    the budget can raise, or leaves one broadcast exchange behind. *)
Lemma broadcast_many_outcomes state pred num_receivers w :
  num_receivers <> 1 ->
  let r := maybe_interpolate_local_broadcast_exchange state pred num_receivers w in
  (exists e, r = Failed e) \/
  (exists budget,
     interpolated BroadcastExchanger budget (CInt.to_size_t num_receivers)
                  state pred w r).
Proof.
  intros Hne. cbv zeta. unfold maybe_interpolate_local_broadcast_exchange.
  destruct (Z.eqb_spec num_receivers 1) as [|_]; [contradiction|].
  step_with next_pseudo_plan_node_id_run.
  rewrite bind_run.
  match goal with |- context [int_mul ?a ?b ?w1] =>
    destruct (int_mul_outcomes a b w1) as [[e ->]|[z ->]] end;
    [left; eauto|].
  rewrite bind_run.
  match goal with |- context [int_mul ?a ?b ?w1] =>
    destruct (int_mul_outcomes a b w1) as [[e ->]|[z' ->]] end;
    [left; eauto|].
  right. exists z'.
  run_exchange_creation. close_interpolated.
Qed.




(** *** Broadcast interpolation *)

(** C6.  With [num_receivers = 1], broadcast interpolation is passthrough
    interpolation on the same inputs, whatever they are: the same outcome,
    the same returned sequence, the same world; and that outcome is a
    fault, the untouched input, or one passthrough exchange, so that no
    broadcast exchanger appears.  With [num_receivers >= 2] and a budget
    that fits an [int], it creates one exchange with a broadcast exchanger
    and the budget [chunk_size * num_receivers * num_receivers], appends the
    sink to the predecessor sequence and seals it as one pipeline, and
    returns the exchange source alone, with parallelism [num_receivers];
    the predecessor's own parallelism is not looked at. *)
Theorem broadcast_interpolation
    (state : RuntimeState) (pred : OpFactories) (num_receivers : Z) (w : World) :
  (let r := maybe_interpolate_local_broadcast_exchange state pred 1 w in
   r = maybe_interpolate_local_passthrough_exchange_to_one state pred w /\
   r = maybe_interpolate_local_passthrough_exchange state pred 1 w /\
   ((exists e, r = Failed e) \/
    r = Ok (pred, pred) w \/
    (exists budget, interpolated PassthroughExchanger budget 1 state pred w r))) /\
  (2 <= num_receivers ->
   CInt.in_int num_receivers ->
   CInt.in_int (chunk_size state * num_receivers * num_receivers) ->
   interpolated BroadcastExchanger
     (chunk_size state * num_receivers * num_receivers) num_receivers state pred w
     (maybe_interpolate_local_broadcast_exchange state pred num_receivers w)).
Proof.
  split.
  - cbv zeta. split; [reflexivity|]. split; [reflexivity|].
    exact (passthrough_outcomes state pred 1 w).
  - intros Hnr Hnri Hmul.
    assert (Hsz : CInt.in_size_t num_receivers)
      by (apply CIntFacts.in_int_size_t; [lia|exact Hnri]).
    assert (Hmul1 : CInt.in_int (chunk_size state * num_receivers)).
    { unfold CInt.in_int, CInt.INT_MIN, CInt.INT_MAX in *. nia. }
    unfold maybe_interpolate_local_broadcast_exchange.
    destruct (Z.eqb_spec num_receivers 1) as [|_]; [lia|].
    step_with next_pseudo_plan_node_id_run.
    rewrite bind_run, run_int_mul by exact Hmul1. cbv beta iota.
    rewrite bind_run, run_int_mul by exact Hmul.
    run_exchange_creation.
    rewrite CIntFacts.to_size_t_id by exact Hsz.
    close_interpolated.
Qed.

(** *** Shuffle interpolation *)

(** C7.  Let the predecessor sequence begin with a source factory, and let
    [target_dop] be the parallelism of the builder context.  If
    [target_dop <= 1], shuffle interpolation returns the input sequence and
    changes nothing.  If [target_dop >= 2] is a [size_t], with a
    non-negative chunk size and a budget below 2^64, it creates one exchange with a partition
    exchanger (built from the partition type, the partition expressions and
    the parallelism of the predecessor's source) and the budget
    [chunk_size * target_dop], appends the shuffle sink to the predecessor
    sequence and seals it as one pipeline, and returns the shuffle source
    alone, with parallelism [target_dop]. *)
Theorem shuffle_interpolation
    (state : RuntimeState) (pred : OpFactories) (partition_expr_ctxs : list ptr)
    (part_type pred_dop : Z) (w : World) :
  begins_with_source w pred pred_dop ->
  let target_dop := _degree_of_parallelism (context w) in
  let r := maybe_interpolate_local_shuffle_exchange state pred partition_expr_ctxs
                                                    part_type w in
  (target_dop <= 1 -> r = Ok (pred, pred) w) /\
  (2 <= target_dop ->
   CInt.in_size_t target_dop ->
   0 <= chunk_size state ->
   chunk_size state * target_dop < CInt.SIZE_MOD ->
   interpolated
     (fun mem_mgr source =>
        PartitionExchanger mem_mgr source part_type partition_expr_ctxs pred_dop)
     (chunk_size state * target_dop) target_dop state pred w r).
Proof.
  intros (front & rest & f & -> & Hf & Hd). cbv zeta.
  pose proof (degree_of_parallelism_is_source _ _ Hd) as Hs.
  unfold maybe_interpolate_local_shuffle_exchange.
  set (pred := front :: rest).
  rewrite bind_run, (dcheck_nonempty_source_ok pred front f) by easy.
  rewrite bind_run, context_degree_of_parallelism_run.
  split.
  - intros Hle. destruct (Z.leb_spec (_degree_of_parallelism (context w)) 1);
      [reflexivity|lia].
  - intros Hge Hsz Hcs Hmul.
    assert (Hcsz : CInt.in_size_t (chunk_size state))
      by (unfold CInt.in_size_t; nia).
    destruct (Z.leb_spec (_degree_of_parallelism (context w)) 1); [lia|].
    rewrite bind_run, (vector_at_ok pred 0 front) by easy.
    rewrite bind_run, (down_cast_source_ok front f) by easy.
    step_with next_pseudo_plan_node_id_run.
    unfold CInt.size_mul.
    rewrite (CIntFacts.to_size_t_id (chunk_size state)) by exact Hcsz.
    rewrite (CIntFacts.to_size_t_id (_ * _)) by (unfold CInt.in_size_t; nia).
    step_with make_shared_run.
    step_with next_operator_id_run.
    step_with make_shared_run.
    rewrite bind_run.
    erewrite set_runtime_state_ok by (norm; at_address).
    cbv beta iota zeta; norm.
    rewrite insert_app_r; cbn [insert list_insert with_runtime_state].
    rewrite bind_run.
    erewrite (source_degree_of_parallelism_ok front f pred_dop);
      [|norm; rewrite lookup_app_l by (eapply lookup_lt_Some; exact Hf); exact Hf
       |exact Hd].
    cbv beta iota zeta; norm.
    step_with make_shared_run.
    step_with next_operator_id_run.
    step_with make_shared_run.
    step_with add_pipeline_run.
    rewrite bind_run.
    erewrite set_degree_of_parallelism_ok by (norm; at_address).
    cbv beta iota zeta; norm.
    rewrite insert_app_r; cbn [insert list_insert with_degree_of_parallelism].
    rewrite ret_run.
    rewrite CIntFacts.to_size_t_id by exact Hsz.
    rewrite (Z.mul_comm (_degree_of_parallelism (context w))).
    close_interpolated.
Qed.

(** *** Gathering pipelines *)

Lemma gather_budget_nonneg rows dops :
  0 <= rows -> Forall (fun d => 0 <= d) dops -> 0 <= gather_budget rows dops.
Proof.
  intros Hr. induction 1 as [|d ds Hd _ IH]; [cbn; lia|].
  change (0 <= d * rows + gather_budget rows ds). nia.
Qed.

Lemma gather_max_row_count_ok state w preds dops :
  Forall2 (begins_with_source w) preds dops ->
  Forall (fun d => 0 <= d) dops ->
  CInt.in_size_t (chunk_size state) ->
  forall acc,
    0 <= acc ->
    acc + gather_budget (chunk_size state) dops < CInt.SIZE_MOD ->
    gather_max_row_count state preds acc w
      = Ok (acc + gather_budget (chunk_size state) dops) w.
Proof.
  intros Hall Hpos Hcs. induction Hall as [|pred d preds dops Hb _ IH];
    intros acc Hacc Hsum.
  - cbn. now rewrite Z.add_0_r.
  - inversion Hpos as [|? ? Hd Hds]; subst.
    destruct Hb as (front & rest & f & -> & Hf & Hdop).
    pose proof (degree_of_parallelism_is_source _ _ Hdop) as Hs.
    pose proof (gather_budget_nonneg (chunk_size state) dops (proj1 Hcs) Hds) as Hrest.
    cbn [gather_max_row_count gather_budget foldr] in *.
    fold (gather_budget (chunk_size state) dops) in *.
    rewrite bind_run, (vector_at_ok (front :: rest) 0 front) by easy.
    rewrite bind_run, (down_cast_source_ok front f) by easy.
    rewrite bind_run, (source_degree_of_parallelism_ok front f d) by easy.
    unfold CInt.size_add, CInt.size_mul.
    rewrite (CIntFacts.to_size_t_id (chunk_size state)) by exact Hcs.
    assert (0 <= d * chunk_size state) by (destruct Hcs; nia).
    rewrite (CIntFacts.to_size_t_id (d * _)) by (unfold CInt.in_size_t; lia).
    rewrite (CIntFacts.to_size_t_id (acc + _)) by (unfold CInt.in_size_t; lia).
    rewrite IH by (try exact Hds; lia). f_equal. lia.
Qed.

Lemma gather_append_sinks_run plan_node_id exchanger preds : forall w,
  exists (sink_ids : list Z) (w' : World),
    let preds' := imap (fun i p => p ++ [(length (objects w) + i)%nat]) preds in
    length sink_ids = length preds /\
    gather_append_sinks plan_node_id exchanger preds w = Ok preds' w' /\
    objects w' =
      objects w ++
      map (fun sink_id =>
             ObjFactory (LocalExchangeSinkOperatorFactory sink_id plan_node_id exchanger))
          sink_ids /\
    _pipelines (context w') = _pipelines (context w) ++ map mkPipeline preds' /\
    _degree_of_parallelism (context w') = _degree_of_parallelism (context w).
Proof.
  induction preds as [|pred rest IH]; intros w; cbv zeta.
  - exists [], w. cbn. rewrite !app_nil_r. now repeat split.
  - cbn [gather_append_sinks].
    rewrite bind_run, next_operator_id_run. cbv beta iota.
    rewrite bind_run, make_shared_run. cbv beta iota zeta.
    rewrite bind_run, add_pipeline_run. cbv beta iota.
    cbn [objects context _pipelines _id_gen _degree_of_parallelism].
    rewrite bind_run.
    match goal with |- context [gather_append_sinks _ _ rest ?w1] =>
      destruct (IH w1) as (ids & w' & Hlen & Hrun & Hobj & Hpipe & Hdop) end.
    cbn [objects context _pipelines _id_gen _degree_of_parallelism] in *.
    rewrite Hrun. cbv beta iota. rewrite ret_run.
    assert (Himap :
      imap (fun i p => p ++ [(length (objects w ++
              [ObjFactory (LocalExchangeSinkOperatorFactory
                 (gen_operator_id (_id_gen (context w))).1 plan_node_id exchanger)])
              + i)%nat]) rest
      = imap ((fun i p => p ++ [(length (objects w) + i)%nat]) ∘ S) rest).
    { apply imap_ext. intros i p _. unfold compose. rewrite length_app. cbn.
      do 2 f_equal. lia. }
    rewrite Himap in *.
    exists ((gen_operator_id (_id_gen (context w))).1 :: ids), w'.
    cbn [imap length map]. rewrite Nat.add_0_r.
    split; [now rewrite Hlen|]. split; [reflexivity|].
    split; [rewrite Hobj, <- app_assoc; reflexivity|].
    split; [rewrite Hpipe, <- app_assoc; reflexivity|exact Hdop].
Qed.

(** C8.  [maybe_gather_pipelines_to_one] on a list of exactly one
    predecessor returns that predecessor and changes nothing: no exchange,
    no pipeline.  On a list of [k > 1] predecessors, each beginning with a
    source factory, with a non-negative chunk size and a total below 2^64,
    it creates one memory manager whose budget is the sum over the
    predecessors of parallelism times chunk size, one exchange source, one
    passthrough exchanger, and [k] sinks, all on that one exchanger; each
    predecessor gets its sink appended and is sealed as a pipeline of its
    own; and the returned sequence holds the exchange source alone, at the
    parallelism of the builder context. *)
Theorem gather_pipelines_to_one
    (state : RuntimeState) (pred : OpFactories) (preds : list OpFactories)
    (dops : list Z) (w : World) :
  maybe_gather_pipelines_to_one state [pred] w = Ok (pred, [pred]) w /\
  ((1 < length preds)%nat ->
   Forall2 (begins_with_source w) preds dops ->
   Forall (fun d => 0 <= d) dops ->
   0 <= chunk_size state ->
   CInt.in_int (chunk_size state) ->
   gather_budget (chunk_size state) dops < CInt.SIZE_MOD ->
   CInt.in_size_t (_degree_of_parallelism (context w)) ->
   gathered (gather_budget (chunk_size state) dops) state preds w
            (maybe_gather_pipelines_to_one state preds w)).
Proof.
  split; [reflexivity|].
  intros Hk Hall Hpos Hcs Hcsi Hsum Hdop.
  assert (Hcsz : CInt.in_size_t (chunk_size state))
    by now apply CIntFacts.in_int_size_t.
  unfold maybe_gather_pipelines_to_one.
  destruct (Z.eqb_spec (FragmentCtx.vector_size preds) 1) as [E|_];
    [unfold FragmentCtx.vector_size in E; lia|].
  rewrite bind_run, (gather_max_row_count_ok state w preds dops) by (easy || lia).
  rewrite Z.add_0_l.
  step_with next_pseudo_plan_node_id_run.
  step_with make_shared_run.
  step_with next_operator_id_run.
  step_with make_shared_run.
  rewrite bind_run.
  erewrite set_runtime_state_ok by (norm; at_address).
  cbv beta iota zeta; norm.
  rewrite insert_app_r; cbn [insert list_insert with_runtime_state].
  step_with make_shared_run.
  rewrite bind_run.
  match goal with |- context [gather_append_sinks ?pn ?ex preds ?w1] =>
    destruct (gather_append_sinks_run pn ex preds w1)
      as (ids & w' & Hlen & Hrun & Hobj & Hpipe & Hdop') end.
  cbv zeta in *.
  cbn [objects context _pipelines _id_gen _degree_of_parallelism] in *.
  rewrite length_app in *. cbn [length] in *.
  rewrite Hrun. cbv beta iota.
  rewrite bind_run, context_degree_of_parallelism_run, Hdop'.
  rewrite bind_run.
  erewrite set_degree_of_parallelism_ok
    by (rewrite Hobj, <- app_assoc; at_address).
  cbv beta iota. rewrite ret_run.
  rewrite CIntFacts.to_size_t_id by exact Hdop.
  eexists _, _, _, ids. cbv zeta.
  cbn [objects context _pipelines _id_gen _degree_of_parallelism].
  split; [exact Hlen|]. split; [reflexivity|].
  split; [|split; [exact Hpipe|exact Hdop']].
  rewrite Hobj, <- app_assoc, insert_app_r. reflexivity.
Qed.

End WithEnv.

(** *** Concrete runs *)

Lemma scans_begin_with_source (dops : list Z) (dop : Z) (i : nat) (d : Z) :
  dops !! i = Some d ->
  begins_with_source (scans_world dops dop) [i] d.
Proof.
  intros H. exists i, [], (PlanSourceOperatorFactory (Z.of_nat i) (Z.of_nat i) d).
  split; [reflexivity|]. split; [|reflexivity].
  unfold scans_world. cbn [objects]. rewrite list_lookup_imap, H. reflexivity.
Qed.

Lemma in_int_small z : -1000000 <= z <= 1000000 -> CInt.in_int z.
Proof. unfold CInt.in_int, CInt.INT_MIN, CInt.INT_MAX. lia. Qed.

Lemma in_size_t_small z : 0 <= z <= 1000000 -> CInt.in_size_t z.
Proof. unfold CInt.in_size_t, CInt.SIZE_MOD. lia. Qed.

(** A source of parallelism 4 feeding a consumer of parallelism 1: one
    passthrough exchange with the budget [4096 * max(1, 4)], and the
    returned sequence is one exchange source of parallelism 1. *)
Lemma passthrough_interpolates_witness :
  interpolated (Env := counting_env) PassthroughExchanger
    (4096 * Z.max 1 4) 1 rows4096 [0%nat] (scans_world [4] 1)
    (maybe_interpolate_local_passthrough_exchange rows4096 [0%nat] 1 (scans_world [4] 1)).
Proof.
  apply (passthrough_interpolates (Env := counting_env) rows4096 [0%nat] 1 4
           (scans_world [4] 1)).
  - now apply scans_begin_with_source.
  - lia.
  - lia.
  - apply in_int_small; lia.
  - lia.
  - apply in_int_small; lia.
  - apply in_int_small; cbn; lia.
Defined.



Lemma broadcast_interpolation_witness :
  (let r := maybe_interpolate_local_broadcast_exchange (Env := counting_env)
              rows4096 [0%nat] 1 (scans_world [4] 1) in
   r = maybe_interpolate_local_passthrough_exchange_to_one rows4096 [0%nat]
         (scans_world [4] 1) /\
   r = maybe_interpolate_local_passthrough_exchange rows4096 [0%nat] 1
         (scans_world [4] 1) /\
   ((exists e, r = Failed e) \/
    r = Ok ([0%nat], [0%nat]) (scans_world [4] 1) \/
    (exists budget,
       interpolated PassthroughExchanger budget 1 rows4096 [0%nat]
                    (scans_world [4] 1) r))) /\
  interpolated (Env := counting_env) BroadcastExchanger
    (4096 * 4 * 4) 4 rows4096 [0%nat] (scans_world [4] 1)
    (maybe_interpolate_local_broadcast_exchange rows4096 [0%nat] 4 (scans_world [4] 1)).
Proof.
  destruct (broadcast_interpolation (Env := counting_env) rows4096 [0%nat] 4
              (scans_world [4] 1)) as [Hone Hmany].
  split; [exact Hone|].
  apply Hmany.
  - lia.
  - apply in_int_small; lia.
  - apply in_int_small; cbn; lia.
Defined.

Lemma shuffle_interpolation_witness :
  maybe_interpolate_local_shuffle_exchange (Env := counting_env)
    rows4096 [0%nat] [7%nat] 2 (scans_world [4] 1)
    = Ok ([0%nat], [0%nat]) (scans_world [4] 1) /\
  interpolated (Env := counting_env)
    (fun mem_mgr source => PartitionExchanger mem_mgr source 2 [7%nat] 4)
    (4096 * 3) 3 rows4096 [0%nat] (scans_world [4] 3)
    (maybe_interpolate_local_shuffle_exchange rows4096 [0%nat] [7%nat] 2
       (scans_world [4] 3)).
Proof.
  split.
  - apply (shuffle_interpolation (Env := counting_env) rows4096 [0%nat] [7%nat] 2 4
             (scans_world [4] 1)).
    + now apply scans_begin_with_source.
    + cbn. lia.
  - apply (shuffle_interpolation (Env := counting_env) rows4096 [0%nat] [7%nat] 2 4
             (scans_world [4] 3)).
    + now apply scans_begin_with_source.
    + cbn. lia.
    + apply in_size_t_small. cbn. lia.
    + cbn. lia.
    + cbn. unfold CInt.SIZE_MOD. lia.
Defined.

Lemma gather_pipelines_to_one_witness :
  maybe_gather_pipelines_to_one (Env := counting_env) rows4096 [[0%nat]]
    (scans_world [4; 2] 3)
    = Ok ([0%nat], [[0%nat]]) (scans_world [4; 2] 3) /\
  gathered (Env := counting_env) (gather_budget 4096 [4; 2]) rows4096
    [[0%nat]; [1%nat]] (scans_world [4; 2] 3)
    (maybe_gather_pipelines_to_one rows4096 [[0%nat]; [1%nat]] (scans_world [4; 2] 3)).
Proof.
  destruct (gather_pipelines_to_one (Env := counting_env) rows4096 [0%nat]
              [[0%nat]; [1%nat]] [4; 2] (scans_world [4; 2] 3)) as [Hone Hmany].
  split; [exact Hone|].
  apply Hmany.
  - cbn. lia.
  - repeat constructor; now apply scans_begin_with_source.
  - repeat constructor; lia.
  - cbn. lia.
  - apply in_int_small. cbn. lia.
  - cbn. unfold CInt.SIZE_MOD. lia.
  - apply in_size_t_small. cbn. lia.
Defined.

End BuilderFacts.

(** * Further properties *)

(** ** The fragment context *)

Module FragmentCtxExtra.

Import FragmentCtx FragmentCtxFacts.

(** *** Counting down past zero *)

Lemma size_sub_mod n : CInt.size_sub (n mod CInt.SIZE_MOD) 1 = (n - 1) mod CInt.SIZE_MOD.
Proof.
  unfold CInt.size_sub, CInt.to_size_t. apply Zminus_mod_idemp_l.
Qed.

Lemma count_down_all_wrapping callers : forall c n,
  _num_drivers c = n mod CInt.SIZE_MOD ->
  count_down_all callers c =
    (imap (nth_count_down_wrapping n) callers,
     with_num_drivers ((n - Z.of_nat (length callers)) mod CInt.SIZE_MOD) c).
Proof.
  induction callers as [|t rest IH]; intros c n Hn.
  - cbn. rewrite Z.sub_0_r, <- Hn. now destruct c.
  - cbn [count_down_all length].
    unfold count_down_drivers, num_drivers_fetch_sub.
    rewrite (IH _ (n - 1)) by (cbn; rewrite Hn; apply size_sub_mod).
    cbn [_num_drivers with_num_drivers imap].
    rewrite with_num_drivers_twice. f_equal.
    + f_equal.
      * unfold nth_count_down_wrapping. cbn. now rewrite Z.sub_0_r, <- Hn.
      * apply imap_ext. intros i x _. unfold nth_count_down_wrapping, compose.
        now replace (n - Z.of_nat (S i)) with (n - 1 - Z.of_nat i) by lia.
    + do 2 f_equal. lia.
Qed.

Lemma wraps_to_one n i :
  0 <= n < CInt.SIZE_MOD -> 0 <= i < CInt.SIZE_MOD - 1 ->
  (n - i) mod CInt.SIZE_MOD = 1 <-> i = n - 1.
Proof.
  unfold CInt.SIZE_MOD. intros Hn Hi. split.
  - intros H. destruct (Z_lt_le_dec (n - i) 0) as [Hneg|Hpos].
    + replace (n - i) with ((n - i + 2 ^ 64) + (-1) * 2 ^ 64) in H by lia.
      rewrite Z_mod_plus_full, Z.mod_small in H; lia.
    + rewrite Z.mod_small in H; lia.
  - intros ->. replace (n - (n - 1)) with 1 by lia. now apply Z.mod_small.
Qed.

(** X1.  Whatever the counter holds and however many invocations follow
    (fewer than 2^64 - 1), [count_down_drivers] returns true in the one
    invocation that finds the counter at 1, the [n]-th for a counter at [n],
    and in no other: invocations beyond the [n]-th wrap the counter around
    and return false, and on a counter at zero, as [set_drivers] leaves it
    for an empty driver set, no invocation returns true. *)
Theorem count_down_drivers_true_only_at_one
    (callers : list nat) (c : FragmentContext) :
  CInt.in_size_t (_num_drivers c) ->
  Z.of_nat (length callers) < CInt.SIZE_MOD - 1 ->
  let trace := (count_down_all callers c).1 in
  (forall i e, trace !! i = Some e ->
     cd_returned e = true <-> Z.of_nat i = _num_drivers c - 1) /\
  (length (filter (fun e => cd_returned e = true) trace) <= 1)%nat /\
  (_num_drivers c = 0 -> Forall (fun e => cd_returned e = false) trace).
Proof.
  intros Hn Hlen trace.
  assert (Htrace : trace = imap (nth_count_down_wrapping (_num_drivers c)) callers).
  { subst trace. rewrite (count_down_all_wrapping callers c (_num_drivers c));
      [reflexivity|]. symmetry. now apply Z.mod_small. }
  assert (Hiff : forall i e, trace !! i = Some e ->
            cd_returned e = true <-> Z.of_nat i = _num_drivers c - 1).
  { intros i e He. rewrite Htrace, list_lookup_imap in He.
    destruct (callers !! i) as [t|] eqn:Ht; [|discriminate].
    apply lookup_lt_Some in Ht. inversion He; subst e. cbn.
    rewrite Z.eqb_eq. apply wraps_to_one; [exact Hn|lia]. }
  split; [exact Hiff|]. split.
  - clear Htrace. revert Hiff.
    generalize (_num_drivers c - 1). intros m.
    induction trace as [|e tr IH] using rev_ind; intros Hiff; [cbn; lia|].
    rewrite filter_app, length_app.
    assert (Htr : forall i e', tr !! i = Some e' ->
              cd_returned e' = true <-> Z.of_nat i = m).
    { intros i e' Hi. apply Hiff. rewrite lookup_app_l; [exact Hi|].
      now apply lookup_lt_Some in Hi. }
    specialize (IH Htr).
    destruct (cd_returned e) eqn:Hr.
    + assert (Hm : Z.of_nat (length tr) = m).
      { apply (Hiff _ e); [|exact Hr]. now apply list_lookup_middle. }
      assert (Hnone : filter (fun e' => cd_returned e' = true) tr = []).
      { apply filter_all_false, Forall_lookup. intros i e' Hi.
        destruct (cd_returned e') eqn:Hr'; [|reflexivity].
        apply (Htr i e' Hi) in Hr'. apply lookup_lt_Some in Hi. lia. }
      rewrite Hnone, filter_cons_True by exact Hr. cbn. lia.
    + rewrite (filter_cons_False _ e) by congruence. cbn. lia.
  - intros Hz. apply Forall_lookup. intros i e He.
    destruct (cd_returned e) eqn:Hr; [|reflexivity].
    apply (Hiff i e He) in Hr. lia.
Qed.

Lemma count_down_drivers_true_only_at_one_witness :
  let c := set_drivers [] (new_FragmentContext garbage) in
  let trace := (count_down_all [4; 5; 6]%nat c).1 in
  (forall i e, trace !! i = Some e ->
     cd_returned e = true <-> Z.of_nat i = _num_drivers c - 1) /\
  (length (filter (fun e => cd_returned e = true) trace) <= 1)%nat /\
  (_num_drivers c = 0 -> Forall (fun e => cd_returned e = false) trace).
Proof.
  apply (count_down_drivers_true_only_at_one [4; 5; 6]%nat
           (set_drivers [] (new_FragmentContext garbage))).
  - vm_compute. split; [discriminate|reflexivity].
  - vm_compute. reflexivity.
Defined.

(** *** The diagnostic without a second attempt *)

Lemma apply_op_quiet o c :
  ~ is_set_drivers o -> quiet c ->
  quiet (apply_op o c) /\ warnings (apply_op o c) = warnings c.
Proof.
  intros Ho Hq.
  assert (Hset : forall s c', quiet c' ->
            quiet (set_final_status s c') /\
            warnings (set_final_status s c') = warnings c').
  { intros s c' Hq'. destruct (_final_status c') eqn:Hf.
    - rewrite set_final_status_unlatched by exact Hf.
      rewrite (Hq' Hf). split; [intros H; discriminate H|].
      cbn. apply app_nil_r.
    - rewrite set_final_status_set; [now split|now rewrite Hf].
    - rewrite set_final_status_set; [now split|now rewrite Hf]. }
  destruct o; cbn [apply_op]; try (now split).
  - now destruct Ho.
  - now apply Hset.
  - unfold cancel. destruct (Hset s (with_cancel_flag true c) Hq) as [H1 H2].
    split; [exact H1|]. now rewrite H2.
  - unfold finish, cancel.
    destruct (Hset Status_OK (with_cancel_flag true c) Hq) as [H1 H2].
    split; [exact H1|]. now rewrite H2.
  - now destruct (promise_set_value (_finish_promise c)).
Qed.

(** X2.  On a context whose [_s_status] holds no cancellation while the
    slot is null, and on a new context whatever its storage held, no
    sequence of operations without [set_drivers] ever writes the "Canceled"
    diagnostic: not the call of [set_final_status] or [cancel] that latches a
    cancellation, since its test reads [_s_status] before the status is
    stored, and no later call, since the slot is then set. *)
Theorem no_diagnostic_before_set_drivers (c : FragmentContext) (ops : list Op)
    (raw : Indeterminate) :
  quiet c ->
  Forall (fun o => ~ is_set_drivers o) ops ->
  warnings (apply_ops ops c) = warnings c /\
  warnings (apply_ops ops (new_FragmentContext raw)) = [].
Proof.
  intros Hq Hops.
  assert (Hgen : forall c', quiet c' -> warnings (apply_ops ops c') = warnings c').
  { clear c Hq. induction ops as [|o os IH]; intros c' Hq'; [reflexivity|].
    inversion Hops as [|? ? Ho Hos]; subst.
    change (apply_ops (o :: os) c') with (apply_ops os (apply_op o c')).
    destruct (apply_op_quiet o c' Ho Hq') as [H1 H2].
    rewrite IH by assumption. exact H2. }
  split; [now apply Hgen|].
  rewrite Hgen; [reflexivity|]. intros _. reflexivity.
Qed.

Lemma no_diagnostic_before_set_drivers_witness :
  let ops := [OpCancel (Status_Cancelled "user"); OpCountDownDrivers;
              OpSetFinalStatus (Status_Cancelled "again"); OpFinish] in
  let c := set_drivers [1]%nat (new_FragmentContext garbage) in
  warnings (apply_ops ops c) = warnings c /\
  warnings (apply_ops ops (new_FragmentContext garbage)) = [].
Proof.
  apply (no_diagnostic_before_set_drivers
           (set_drivers [1]%nat (new_FragmentContext garbage))
           [OpCancel (Status_Cancelled "user"); OpCountDownDrivers;
            OpSetFinalStatus (Status_Cancelled "again"); OpFinish] garbage).
  - intros _. reflexivity.
  - repeat constructor; cbn; tauto.
Defined.

(** *** Racing calls, run *)

(** Two calls race on a context with its drivers attached.  Thread 1
    takes the compare-and-swap between the check and the swap of thread 0,
    and both have returned before thread 0 has had four turns. *)
Lemma racing_set_final_status_witness :
  let args := [Status_InternalError "a"; Status_Cancelled "b"] in
  let c := set_drivers [1; 2]%nat (new_FragmentContext garbage) in
  let st := run_schedule [0; 1; 1; 0; 1; 1; 0]%nat (calls_of args, c) in
  map call_status st.1 = args /\
  exists i s,
    args !! i = Some s /\
    (forall j k, st.1 !! j = Some k -> call_swapped k = true <-> j = i) /\
    _final_status st.2 = addr_s_status /\
    _s_status st.2 = s /\
    final_status st.2 = Some s.
Proof.
  destruct (racing_set_final_status
              [Status_InternalError "a"; Status_Cancelled "b"]
              [0; 1; 1; 0; 1; 1; 0]%nat
              (set_drivers [1; 2]%nat (new_FragmentContext garbage)))
    as (Hargs & _ & Hwon).
  - reflexivity.
  - discriminate.
  - split; [exact Hargs|]. apply Hwon. repeat constructor.
Defined.

(** *** Preparing and closing the pipelines *)

Lemma prepare_pipelines_log {W : Type} (pipe_prepare : PipelinePtr -> W -> Status * W)
    (pipelines : list PipelinePtr) : forall (w : W) (log : list PipelineEvent),
  let '(st, w', log') := prepare_pipelines pipe_prepare pipelines w log in
  (st = Status_OK /\ all_prepare_ok pipe_prepare pipelines w w' /\
   log' = log ++ map Prepared pipelines) \/
  (status_ok st = false /\
   exists before pipe after w0,
     pipelines = before ++ pipe :: after /\
     all_prepare_ok pipe_prepare before w w0 /\
     pipe_prepare pipe w0 = (st, w') /\
     log' = log ++ map Prepared (before ++ [pipe])).
Proof.
  induction pipelines as [|pipe rest IH]; intros w log.
  - cbn. left. split; [reflexivity|]. split; [now split|]. now rewrite app_nil_r.
  - cbn [prepare_pipelines].
    destruct (pipe_prepare pipe w) as [st w1] eqn:Hp.
    destruct (status_ok st) eqn:Hok.
    + specialize (IH w1 (log ++ [Prepared pipe])).
      destruct (prepare_pipelines pipe_prepare rest w1 (log ++ [Prepared pipe]))
        as [[st' w'] log'].
      assert (Hcons : forall ps w2, all_prepare_ok pipe_prepare ps w1 w2 ->
                all_prepare_ok pipe_prepare (pipe :: ps) w w2).
      { intros ps w2 [Hall Hw2]. unfold all_prepare_ok. cbn [prepare_each].
        rewrite Hp. destruct (prepare_each pipe_prepare ps w1) as [sts w3].
        cbn in *. split; [now constructor|exact Hw2]. }
      destruct IH as [(H1 & H2 & H3)|[H1 (before & p & after & w0 & H2 & H3 & H4 & H5)]].
      * left. split; [exact H1|]. split; [now apply Hcons|].
        rewrite H3, <- app_assoc. reflexivity.
      * right. split; [exact H1|].
        exists (pipe :: before), p, after, w0.
        split; [now rewrite H2|]. split; [now apply Hcons|]. split; [exact H4|].
        rewrite H5, <- app_assoc. reflexivity.
    + right. split; [exact Hok|].
      exists [], pipe, rest, w. split; [reflexivity|].
      split; [now split|]. now split.
Qed.

(** The calls on a sequence are those on its front followed by those on its
    rest. *)
Lemma prepare_each_app {W : Type} (pipe_prepare : PipelinePtr -> W -> Status * W)
    (ps qs : list PipelinePtr) : forall w : W,
  prepare_each pipe_prepare (ps ++ qs) w =
    let '(sts, w1) := prepare_each pipe_prepare ps w in
    let '(sts', w2) := prepare_each pipe_prepare qs w1 in
    (sts ++ sts', w2).
Proof.
  induction ps as [|p ps IH]; intros w; cbn [app prepare_each].
  - now destruct (prepare_each pipe_prepare qs w).
  - destruct (pipe_prepare p w) as [st w1]. rewrite IH.
    destruct (prepare_each pipe_prepare ps w1) as [sts w2].
    now destruct (prepare_each pipe_prepare qs w2).
Qed.

Lemma close_all_log {W : Type} (pipe_close : PipelinePtr -> W -> W)
    (pipelines : list PipelinePtr) : forall (st : W * list PipelineEvent),
  (foldl (fun st pipe => (pipe_close pipe st.1, st.2 ++ [Closed pipe])) st pipelines).2
    = st.2 ++ map Closed pipelines.
Proof.
  induction pipelines as [|pipe rest IH]; intros st; cbn.
  - now rewrite app_nil_r.
  - rewrite IH. cbn. now rewrite <- app_assoc.
Qed.

Lemma prepared_in_app l1 l2 : prepared_in (l1 ++ l2) = prepared_in l1 ++ prepared_in l2.
Proof. unfold prepared_in. apply omap_app. Qed.

Lemma closed_in_app l1 l2 : closed_in (l1 ++ l2) = closed_in l1 ++ closed_in l2.
Proof. unfold closed_in. apply omap_app. Qed.

Lemma prepared_in_prepared ps : prepared_in (map Prepared ps) = ps.
Proof. induction ps as [|p ps IH]; [reflexivity|]. cbn. now f_equal. Qed.

Lemma prepared_in_closed ps : prepared_in (map Closed ps) = [].
Proof. induction ps as [|p ps IH]; [reflexivity|exact IH]. Qed.

Lemma closed_in_closed ps : closed_in (map Closed ps) = ps.
Proof. induction ps as [|p ps IH]; [reflexivity|]. cbn. now f_equal. Qed.

Lemma closed_in_prepared ps : closed_in (map Prepared ps) = [].
Proof. induction ps as [|p ps IH]; [reflexivity|exact IH]. Qed.

(** X4.  [prepare_all_pipelines] calls [prepare] on the pipelines in
    order and stops at the first call that does not return OK.  Either
    every call returned OK, one call was made per pipeline, and the result
    is OK; or the calls on the pipelines [before] all returned OK, the call
    on the next pipeline returned a status that is not OK, the result is
    that status and the state is the one that call left, and no call was
    made on the pipelines after it.  So the result is OK exactly when the
    [prepare] of every pipeline returns OK.  [close_all_pipelines] then
    closes every pipeline once, in order, those on which [prepare] was never
    called included. *)
Theorem prepare_fails_fast_close_is_unconditional {W : Type}
    (pipe_prepare : PipelinePtr -> W -> Status * W)
    (pipe_close : PipelinePtr -> W -> W) (c : FragmentContext) (w : W) :
  let '(st, w1, log1) := prepare_all_pipelines pipe_prepare c w [] in
  let log2 := (close_all_pipelines pipe_close c w1 log1).2 in
  ((st = Status_OK /\
    all_prepare_ok pipe_prepare (_pipelines c) w w1 /\
    prepared_in log1 = _pipelines c) \/
   (status_ok st = false /\
    exists before pipe after w0,
      _pipelines c = before ++ pipe :: after /\
      all_prepare_ok pipe_prepare before w w0 /\
      pipe_prepare pipe w0 = (st, w1) /\
      prepared_in log1 = before ++ [pipe])) /\
  (status_ok st = true <->
   Forall (fun s => status_ok s = true)
          (prepare_each pipe_prepare (_pipelines c) w).1) /\
  closed_in log1 = [] /\
  prepared_in log2 = prepared_in log1 /\
  closed_in log2 = _pipelines c.
Proof.
  unfold prepare_all_pipelines, close_all_pipelines.
  pose proof (prepare_pipelines_log pipe_prepare (_pipelines c) w []) as H.
  destruct (prepare_pipelines pipe_prepare (_pipelines c) w []) as [[st w1] log1].
  cbv zeta. rewrite close_all_log. cbn [snd].
  rewrite prepared_in_app, closed_in_app, prepared_in_closed, closed_in_closed,
    app_nil_r.
  assert (Hc : closed_in log1 = []).
  { destruct H as [(_ & _ & ->)|[_ (b & p & a & w0 & _ & _ & _ & ->)]];
      cbn; apply closed_in_prepared. }
  rewrite Hc. split; [|split; [|now repeat split]].
  - destruct H as [(H1 & H2 & ->)|[H1 (b & p & a & w0 & H2 & H3 & H4 & ->)]].
    + left. split; [exact H1|]. split; [exact H2|]. cbn. apply prepared_in_prepared.
    + right. split; [exact H1|]. exists b, p, a, w0.
      split; [exact H2|]. split; [exact H3|]. split; [exact H4|].
      cbn. apply prepared_in_prepared.
  - destruct H as [(-> & [H2 _] & _)|[H1 (b & p & a & w0 & H2 & [H3 H3'] & H4 & _)]].
    + split; [intros _; exact H2|reflexivity].
    + rewrite H1. split; [discriminate|]. intros Hall. exfalso.
      rewrite H2, prepare_each_app in Hall.
      destruct (prepare_each pipe_prepare b w) as [sts w2]. cbn [snd] in H3'.
      subst w2. cbn [prepare_each] in Hall. rewrite H4 in Hall.
      destruct (prepare_each pipe_prepare a w1) as [sts' w3]. cbn [fst] in Hall.
      apply Forall_app in Hall as [_ Hall].
      inversion Hall as [|? ? Hst _]. congruence.
Qed.

Lemma prepare_stops_at_the_failing_pipeline :
  let pipe_prepare := fun (pipe : PipelinePtr) (w : list PipelinePtr) =>
    (if (pipe =? 2)%nat then Status_InternalError "no memory" else Status_OK,
     w ++ [pipe]) in
  let c := set_pipelines [1; 2; 3]%nat (new_FragmentContext garbage) in
  prepare_all_pipelines pipe_prepare c [] []
    = (Status_InternalError "no memory", [1; 2]%nat, [Prepared 1%nat; Prepared 2%nat]) /\
  (prepare_each pipe_prepare [1; 2; 3]%nat []).1
    = [Status_OK; Status_InternalError "no memory"; Status_OK].
Proof. split; reflexivity. Qed.

End FragmentCtxExtra.

(** ** The fragment context manager *)

Module FragmentMgrExtra.

Import FragmentCtx FragmentMgr FragmentMgrFacts.

(** *** [get_or_register] *)

(** X5.  [get_or_register] always returns.  The pointer it returns is
    registered under the identifier afterwards, [get] and a second
    [get_or_register] return the same pointer and change nothing, and other
    identifiers keep their entries.  For an identifier that was registered
    the manager is left as it was; for one that was not, the pointer is the
    address of a context that did not exist before, in the state the
    constructor gives it on the storage it got, and the contexts that
    existed are untouched. *)
Theorem get_or_register_is_idempotent (id : TUniqueId) (raw raw' : Indeterminate)
    (s : State) :
  exists p s1,
    get_or_register id raw s = Returns p s1 /\
    _fragment_contexts s1 !! id = Some p /\
    get id s1 = Returns p s1 /\
    get_or_register id raw' s1 = Returns p s1 /\
    (forall id', id' <> id ->
       _fragment_contexts s1 !! id' = _fragment_contexts s !! id') /\
    match _fragment_contexts s !! id with
    | Some p0 => p = p0 /\ s1 = s
    | None =>
        p = Some (length (ctx_heap s)) /\
        ctx_heap s1 = ctx_heap s ++ [new_FragmentContext raw]
    end.
Proof.
  unfold get_or_register at 1.
  destruct (_fragment_contexts s !! id) as [p0|] eqn:Hid.
  - exists p0, s. unfold get, get_or_register. rewrite Hid. now repeat split.
  - eexists _, _. split; [reflexivity|].
    unfold get, get_or_register. cbn [_fragment_contexts ctx_heap].
    rewrite lookup_insert_eq.
    split; [reflexivity|]. split; [reflexivity|]. split; [reflexivity|].
    split; [|now split].
    intros id' Hne. now apply lookup_insert_ne.
Qed.

(** *** [cancel] *)

Lemma cancel_twice status c :
  FragmentCtx.cancel status (FragmentCtx.cancel status c) = FragmentCtx.cancel status c.
Proof.
  assert (Hflag : forall c', _cancel_flag c' = true -> with_cancel_flag true c' = c').
  { intros c' H. destruct c'. cbn in *. now subst. }
  unfold FragmentCtx.cancel at 1.
  rewrite Hflag by apply FragmentCtxFacts.cancel_sets_flag.
  apply FragmentCtxFacts.set_final_status_set.
  unfold FragmentCtx.cancel. apply FragmentCtxFacts.set_final_status_not_null.
Qed.

Lemma cancel_keeps_promise status c :
  _finish_promise (FragmentCtx.cancel status c) = _finish_promise c.
Proof.
  unfold FragmentCtx.cancel.
  destruct (_final_status (with_cancel_flag true c)) eqn:H.
  - now rewrite FragmentCtxFacts.set_final_status_unlatched.
  - rewrite FragmentCtxFacts.set_final_status_set; [reflexivity|now rewrite H].
  - rewrite FragmentCtxFacts.set_final_status_set; [reflexivity|now rewrite H].
Qed.

(** The loop of [cancel] over entries whose pointers all refer to
    contexts: every context an entry points to is cancelled, once in effect,
    and the others are left alone. *)
Lemma cancel_loop status (es : list (TUniqueId * option loc)) :
  forall h : list FragmentContext,
  (forall e, e ∈ es -> exists l, e.2 = Some l /\ is_Some (h !! l)) ->
  exists h',
    foldl (fun h e => cancel_at status e.2 h) (Some h) es = Some h' /\
    forall l,
      h' !! l = if decide (Some l ∈ es.*2)
                then FragmentCtx.cancel status <$> h !! l
                else h !! l.
Proof.
  unfold loc. induction es as [|[id p] es IH]; intros h Hall.
  - exists h. split; [reflexivity|]. intros l.
    destruct (decide _) as [Hin|_]; [inversion Hin|reflexivity].
  - destruct (Hall (id, p)) as (l0 & Hp & [c0 Hc0]); [left|]. cbn in Hp. subst p.
    cbn [foldl cancel_at snd]. unfold loc in *. rewrite Hc0.
    destruct (IH (<[l0 := FragmentCtx.cancel status c0]> h)) as (h' & Hrun & Hh').
    { intros e He. destruct (Hall e) as (l & Hl & Hsome); [now right|].
      exists l. split; [exact Hl|].
      apply lookup_lt_is_Some. rewrite length_insert.
      now apply lookup_lt_is_Some. }
    exists h'. split; [exact Hrun|]. intros l. rewrite Hh'.
    pose proof (lookup_lt_Some _ _ _ Hc0) as Hlt.
    rewrite fmap_cons. cbn [snd].
    destruct (decide (l = l0)) as [->|Hne].
    + rewrite list_lookup_insert_eq by exact Hlt. rewrite Hc0.
      rewrite (decide_True (P := Some l0 ∈ Some l0 :: es.*2)) by left.
      destruct (decide _); cbn; [now rewrite cancel_twice|reflexivity].
    + rewrite list_lookup_insert_ne by congruence.
      destruct (decide (Some l ∈ es.*2)) as [Hin|Hout].
      * rewrite decide_True by now right. reflexivity.
      * rewrite decide_False; [reflexivity|].
        intros Hin. apply elem_of_cons in Hin as [E|Hin]; [congruence|contradiction].
Qed.

(** X7.  On a manager whose registered pointers all refer to contexts,
    whether or not their completion signals have been released,
    [cancel(status)] returns and leaves the registry as it is; every
    registered context has had [cancel(status)] applied to it, so that its
    cancel flag is set and, if its status slot was null, [status] is
    latched, while a slot that was not null is left as it was; and a
    context that is not registered is untouched. *)
Theorem cancel_reaches_every_registered_context (status : Status) (s : State) :
  registered_live s ->
  exists s',
    cancel status s = Returns () s' /\
    _fragment_contexts s' = _fragment_contexts s /\
    (forall id l, _fragment_contexts s !! id = Some (Some l) ->
       exists c, ctx_heap s !! l = Some c /\
                 ctx_heap s' !! l = Some (FragmentCtx.cancel status c) /\
                 is_canceled (FragmentCtx.cancel status c) = true /\
                 (_final_status c = nullptr ->
                  final_status (FragmentCtx.cancel status c) = Some status) /\
                 (_final_status c <> nullptr ->
                  FragmentCtx.cancel status c = with_cancel_flag true c)) /\
    (forall l, (forall id, _fragment_contexts s !! id <> Some (Some l)) ->
       ctx_heap s' !! l = ctx_heap s !! l).
Proof.
  intros Hp. unfold cancel.
  destruct (cancel_loop status (map_to_list (_fragment_contexts s)) (ctx_heap s))
    as (h' & Hrun & Hh').
  { intros [id p] He. apply elem_of_map_to_list in He.
    destruct (Hp id p He) as (l & c & -> & Hl). exists l. split; [reflexivity|].
    now rewrite Hl. }
  rewrite Hrun. eexists. split; [reflexivity|]. cbn [_fragment_contexts ctx_heap].
  split; [reflexivity|]. split.
  - intros id l Hid. destruct (Hp id _ Hid) as (l' & c & E & Hl).
    inversion E; subst l'. exists c. split; [exact Hl|].
    split; [|split; [|split]].
    + unfold loc in *. rewrite Hh', Hl. rewrite decide_True; [reflexivity|].
      apply list_elem_of_fmap. exists (id, Some l). split; [reflexivity|].
      now apply elem_of_map_to_list.
    + unfold is_canceled. now rewrite FragmentCtxFacts.cancel_sets_flag.
    + intros Hnull. unfold FragmentCtx.cancel.
      rewrite FragmentCtxFacts.final_status_latched
        by (apply FragmentCtxFacts.set_final_status_latches; now destruct c).
      rewrite FragmentCtxFacts.set_final_status_unlatched by (now destruct c).
      reflexivity.
    + intros Hset. unfold FragmentCtx.cancel.
      apply FragmentCtxFacts.set_final_status_set. now destruct c.
  - intros l Hnot. rewrite Hh'. rewrite decide_False; [reflexivity|].
    intros Hin. apply list_elem_of_fmap in Hin as ([id p] & Hp' & Hin).
    cbn in Hp'. subst p. apply elem_of_map_to_list in Hin. now apply (Hnot id).
Qed.

(** A manager whose one registered context has its completion signal
    released already. *)
Lemma released_context_is_live :
  registered_live
    (mkState [with_finish_promise (mkPromise true false)
                (set_drivers [1]%nat (new_FragmentContext garbage))]
             {[ (0, 7) := Some 0%nat ]}).
Proof.
  intros id p H. cbn in H. apply lookup_singleton_Some in H as [_ <-].
  eexists 0%nat, _. now split.
Qed.

Lemma cancel_reaches_every_registered_context_witness :
  let s := mkState [with_finish_promise (mkPromise true false)
                      (set_drivers [1]%nat (new_FragmentContext garbage))]
                   {[ (0, 7) := Some 0%nat ]} in
  exists s',
    cancel (Status_Cancelled "shutdown") s = Returns () s' /\
    _fragment_contexts s' = _fragment_contexts s /\
    (forall id l, _fragment_contexts s !! id = Some (Some l) ->
       exists c, ctx_heap s !! l = Some c /\
                 ctx_heap s' !! l =
                   Some (FragmentCtx.cancel (Status_Cancelled "shutdown") c) /\
                 is_canceled (FragmentCtx.cancel (Status_Cancelled "shutdown") c) = true /\
                 (_final_status c = nullptr ->
                  final_status (FragmentCtx.cancel (Status_Cancelled "shutdown") c)
                    = Some (Status_Cancelled "shutdown")) /\
                 (_final_status c <> nullptr ->
                  FragmentCtx.cancel (Status_Cancelled "shutdown") c
                    = with_cancel_flag true c)) /\
    (forall l, (forall id, _fragment_contexts s !! id <> Some (Some l)) ->
       ctx_heap s' !! l = ctx_heap s !! l).
Proof.
  exact (cancel_reaches_every_registered_context (Status_Cancelled "shutdown")
           _ released_context_is_live).
Defined.

(** *** The manager along its own calls *)

Lemma cancel_well_formed status s :
  well_formed s ->
  exists s', cancel status s = Returns () s' /\ well_formed s'.
Proof.
  intros [Hp Ho]. unfold cancel.
  destruct (cancel_loop status (map_to_list (_fragment_contexts s)) (ctx_heap s))
    as (h' & Hrun & Hh').
  { intros [id p] He. apply elem_of_map_to_list in He.
    destruct (Hp id p He) as (l & c & -> & Hl & _). exists l. split; [reflexivity|].
    now rewrite Hl. }
  rewrite Hrun. eexists. split; [reflexivity|]. split; [|exact Ho].
  intros id p Hid. cbn in Hid. destruct (Hp id p Hid) as (l & c & -> & Hl & Hc).
  cbn [ctx_heap]. exists l. unfold loc in *.
  pose proof (Hh' l) as Hl'. rewrite Hl in Hl'. case_decide.
  - exists (FragmentCtx.cancel status c). split; [reflexivity|].
    split; [exact Hl'|]. now rewrite cancel_keeps_promise.
  - exists c. now repeat split.
Qed.

Lemma call_manager_well_formed k s :
  well_formed s -> exists s', call_manager k s = Some s' /\ well_formed s'.
Proof.
  intros Hwf. destruct k as [id raw|id|id|status]; cbn [call_manager].
  - destruct (get_or_register_well_formed id raw s Hwf) as (p & s' & -> & H & _).
    now exists s'.
  - exists s. split; [|exact Hwf]. unfold get.
    now destruct (_fragment_contexts s !! id).
  - destruct (unregister_well_formed id s Hwf) as (s' & -> & H & _). now exists s'.
  - destruct (cancel_well_formed status s Hwf) as (s' & -> & H). now exists s'.
Qed.

(** X6.  A manager that starts empty and is used through
    [get_or_register], [get], [unregister] and [cancel], in any order and
    with any arguments, whatever the storage of the contexts it creates
    holds, never throws and never dereferences a null or
    dangling pointer: every call returns.  In every state it reaches, each
    registered pointer refers to a context whose completion signal has not
    been released, and no context is registered under two identifiers. *)
Theorem manager_calls_always_return (ks : list ManagerCall) :
  exists s, call_manager_all ks empty_manager = Some s /\ well_formed s.
Proof.
  assert (Hgen : forall s0, well_formed s0 ->
            exists s, call_manager_all ks s0 = Some s /\ well_formed s).
  { induction ks as [|k ks IH]; intros s0 Hwf; [now exists s0|].
    cbn [call_manager_all].
    destruct (call_manager_well_formed k s0 Hwf) as (s1 & -> & Hwf1).
    now apply IH. }
  apply Hgen, well_formed_empty.
Qed.

(** *** Registering and unregistering *)



End FragmentMgrExtra.

(** ** The pipeline builder *)

Module BuilderExtra.

Import Builder BuilderFacts.

Section WithEnv.

Context `{Env : BuilderEnv}.

Ltac tidy :=
  cbn [objects context _pipelines _id_gen _degree_of_parallelism];
  rewrite <- ?app_assoc; cbn [app];
  rewrite ?length_app; cbn [length].

Ltac run_with lem :=
  rewrite bind_run; rewrite lem; cbv beta iota zeta; tidy.

Ltac new_address :=
  rewrite lookup_past; reflexivity.

Ltac create_exchange :=
  run_with make_shared_run;
  run_with next_operator_id_run;
  run_with make_shared_run;
  rewrite bind_run;
  erewrite set_runtime_state_ok by (tidy; new_address);
  cbv beta iota zeta; tidy;
  rewrite insert_app_r; cbn [insert list_insert with_runtime_state];
  run_with make_shared_run;
  run_with next_operator_id_run;
  run_with make_shared_run;
  run_with add_pipeline_run;
  rewrite bind_run;
  erewrite set_degree_of_parallelism_ok by (tidy; new_address);
  cbv beta iota zeta; tidy;
  rewrite insert_app_r; cbn [insert list_insert with_degree_of_parallelism];
  rewrite ret_run.

Ltac show_interpolated :=
  eexists _, _, _, _; cbv zeta; tidy;
  split; [reflexivity|]; split; [reflexivity|]; split; reflexivity.

(** *** How the primitives end *)

Lemma load_factory_outcomes p w :
  (exists e, load_factory p w = Failed e) \/
  (exists f, objects w !! p = Some (ObjFactory f) /\ load_factory p w = Ok f w).
Proof.
  unfold load_factory. destruct (objects w !! p) as [[| |f]|]; eauto.
Qed.

Lemma dcheck_outcomes pred w :
  (exists e, dcheck_nonempty_source pred w = Failed e) \/
  dcheck_nonempty_source pred w = Ok () w.
Proof.
  unfold dcheck_nonempty_source. destruct dcheck_is_on; [|now right].
  destruct pred as [|p rest]; [left; eexists; reflexivity|].
  rewrite bind_run.
  destruct (load_factory_outcomes p w) as [[e ->]|(f & _ & ->)]; [eauto|].
  destruct (is_source f); [now right|left; eexists; reflexivity].
Qed.

Lemma down_cast_outcomes p w :
  (exists e, down_cast_source p w = Failed e) \/ down_cast_source p w = Ok p w.
Proof.
  unfold down_cast_source. destruct dcheck_is_on; [|now right].
  rewrite bind_run.
  destruct (load_factory_outcomes p w) as [[e ->]|(f & _ & ->)]; [eauto|].
  destruct (is_source f); [now right|left; eexists; reflexivity].
Qed.

Lemma source_dop_outcomes p w :
  (exists e, source_degree_of_parallelism p w = Failed e) \/
  (exists f d, objects w !! p = Some (ObjFactory f) /\
               degree_of_parallelism f = Some d /\
               source_degree_of_parallelism p w = Ok d w).
Proof.
  unfold source_degree_of_parallelism. rewrite bind_run.
  destruct (load_factory_outcomes p w) as [[e ->]|(f & Hf & ->)]; [eauto|].
  destruct (degree_of_parallelism f) as [d|] eqn:Hd;
    [right; eauto|left; eexists; reflexivity].
Qed.

Lemma vector_at_outcomes {A} (v : list A) i w :
  (exists e, vector_at v i w = Failed e) \/
  (exists x, v !! i = Some x /\ vector_at v i w = Ok x w).
Proof.
  unfold vector_at. destruct (v !! i) as [x|]; [right; eauto|left; eexists; reflexivity].
Qed.

(** *** How the interpolations end *)

Lemma passthrough_outcome state pred num_receivers w :
  interpolation_outcome state pred w
    (maybe_interpolate_local_passthrough_exchange state pred num_receivers w).
Proof.
  destruct (passthrough_outcomes state pred num_receivers w) as [H|[H|[b H]]].
  - now left.
  - now right; left.
  - right; right. eauto.
Qed.

Lemma broadcast_outcome state pred num_receivers w :
  interpolation_outcome state pred w
    (maybe_interpolate_local_broadcast_exchange state pred num_receivers w).
Proof.
  destruct (decide (num_receivers = 1)) as [->|Hne].
  - apply (passthrough_outcome state pred 1 w).
  - destruct (broadcast_many_outcomes state pred num_receivers w Hne) as [H|[b H]].
    + now left.
    + right; right. eauto.
Qed.

Lemma shuffle_outcome state pred partition_expr_ctxs part_type w :
  interpolation_outcome state pred w
    (maybe_interpolate_local_shuffle_exchange state pred partition_expr_ctxs
                                              part_type w).
Proof.
  unfold maybe_interpolate_local_shuffle_exchange.
  rewrite bind_run.
  destruct (dcheck_outcomes pred w) as [[e ->]| ->]; [left; eauto|].
  rewrite bind_run, context_degree_of_parallelism_run.
  destruct (_ <=? 1); [right; left; reflexivity|].
  rewrite bind_run.
  destruct (vector_at_outcomes pred 0 w) as [[e ->]|(front & Hfront & ->)];
    [left; eauto|].
  rewrite bind_run.
  destruct (down_cast_outcomes front w) as [[e ->]| ->]; [left; eauto|].
  run_with next_pseudo_plan_node_id_run.
  run_with make_shared_run.
  run_with next_operator_id_run.
  run_with make_shared_run.
  rewrite bind_run.
  erewrite set_runtime_state_ok by (tidy; new_address).
  cbv beta iota zeta; tidy.
  rewrite insert_app_r; cbn [insert list_insert with_runtime_state].
  rewrite bind_run.
  match goal with |- context [source_degree_of_parallelism front ?w1] =>
    destruct (source_dop_outcomes front w1) as [[e ->]|(f & d & _ & _ & ->)] end;
    [left; eauto|].
  right; right.
  exists (fun m s => PartitionExchanger m s part_type partition_expr_ctxs d).
  eexists _, (CInt.to_size_t (_degree_of_parallelism (context w))).
  cbv beta iota zeta; tidy.
  run_with make_shared_run.
  run_with next_operator_id_run.
  run_with make_shared_run.
  run_with add_pipeline_run.
  rewrite bind_run.
  erewrite set_degree_of_parallelism_ok by (tidy; new_address).
  cbv beta iota zeta; tidy.
  rewrite insert_app_r; cbn [insert list_insert with_degree_of_parallelism].
  rewrite ret_run.
  show_interpolated.
Qed.

Lemma interpolation_returns_outcome state pred w res pred' w' :
  interpolation_returns state pred w res pred' w' ->
  (res = pred /\ pred' = pred /\ w' = w) \/
  (exists make_exchanger max_row_count new_dop,
     interpolated make_exchanger max_row_count new_dop state pred w
                  (Ok (res, pred') w')).
Proof.
  intros [nr H|nr H|exprs pt H].
  - destruct (passthrough_outcome state pred nr w) as [[e He]|[Hn|Hi]];
      rewrite H in *; [discriminate|left; now inversion Hn|right; exact Hi].
  - destruct (broadcast_outcome state pred nr w) as [[e He]|[Hn|Hi]];
      rewrite H in *; [discriminate|left; now inversion Hn|right; exact Hi].
  - destruct (shuffle_outcome state pred exprs pt w) as [[e He]|[Hn|Hi]];
      rewrite H in *; [discriminate|left; now inversion Hn|right; exact Hi].
Qed.

(** What an interposed exchange looks like from outside. *)
Lemma interpolated_shape make_exchanger budget new_dop state pred w res pred' w' :
  interpolated make_exchanger budget new_dop state pred w (Ok (res, pred') w') ->
  exists source_id sink_id plan_node_id,
    let mem_mgr := length (objects w) in
    res = [(mem_mgr + 1)%nat] /\
    pred' = pred ++ [(mem_mgr + 3)%nat] /\
    created w w' =
      [ObjMemoryManager budget;
       ObjFactory (LocalExchangeSourceOperatorFactory source_id plan_node_id mem_mgr
                                                      (Some state) new_dop);
       ObjExchanger (make_exchanger mem_mgr (mem_mgr + 1)%nat);
       ObjFactory (LocalExchangeSinkOperatorFactory sink_id plan_node_id
                                                    (mem_mgr + 2)%nat)] /\
    sealed w w' = [mkPipeline pred'] /\
    extends w w'.
Proof.
  intros (w0 & source_id & sink_id & pn & Hr & Hobj & Hpipe & Hdop).
  cbv zeta in *. inversion Hr; subst w0 res pred'. clear Hr.
  assert (Hc : created w w' = drop (length (objects w)) (objects w')) by reflexivity.
  assert (Hs : sealed w w'
               = drop (length (_pipelines (context w))) (_pipelines (context w')))
    by reflexivity.
  rewrite Hobj, drop_app_length in Hc. rewrite Hpipe, drop_app_length in Hs.
  exists source_id, sink_id, pn. cbv zeta.
  split; [reflexivity|]. split; [reflexivity|]. split; [exact Hc|].
  split; [exact Hs|].
  unfold extends. rewrite Hc, Hs. now repeat split.
Qed.

Lemma begins_with_source_extends w w' pred dop :
  extends w w' -> begins_with_source w pred dop -> begins_with_source w' pred dop.
Proof.
  intros (Hobj & _ & _) (front & rest & f & -> & Hf & Hd).
  exists front, rest, f. split; [reflexivity|]. split; [|exact Hd].
  rewrite Hobj, lookup_app_l; [exact Hf|]. now apply lookup_lt_Some in Hf.
Qed.

Lemma is_sink_at_extends w w' p :
  extends w w' -> is_sink_at w p -> is_sink_at w' p.
Proof.
  intros (Hobj & _ & _) (i & n & e & Hp). exists i, n, e.
  rewrite Hobj, lookup_app_l; [exact Hp|]. now apply lookup_lt_Some in Hp.
Qed.

Lemma extends_refl w : extends w w.
Proof.
  unfold extends, created, sealed. rewrite !drop_all, !app_nil_r. now repeat split.
Qed.

(** *** How gathering ends *)

Lemma gather_max_row_count_outcomes state preds : forall acc w,
  (exists e, gather_max_row_count state preds acc w = Failed e) \/
  (exists z, gather_max_row_count state preds acc w = Ok z w).
Proof.
  induction preds as [|p rest IH]; intros acc w; [right; eexists; reflexivity|].
  cbn [gather_max_row_count]. rewrite bind_run.
  destruct (vector_at_outcomes p 0 w) as [[e ->]|(front & _ & ->)]; [left; eauto|].
  rewrite bind_run.
  destruct (down_cast_outcomes front w) as [[e ->]| ->]; [left; eauto|].
  rewrite bind_run.
  destruct (source_dop_outcomes front w) as [[e ->]|(f & d & _ & _ & ->)];
    [left; eauto|].
  apply IH.
Qed.

(** With more or fewer than one predecessor, gathering stops in a fault
    of its first loop or creates the shared exchange. *)
Lemma gather_outcomes state preds w :
  length preds <> 1%nat ->
  CInt.in_size_t (_degree_of_parallelism (context w)) ->
  let r := maybe_gather_pipelines_to_one state preds w in
  (exists e, r = Failed e) \/ (exists budget, gathered budget state preds w r).
Proof.
  intros Hk Hdop. cbv zeta. unfold maybe_gather_pipelines_to_one.
  destruct (Z.eqb_spec (FragmentCtx.vector_size preds) 1) as [E|_];
    [unfold FragmentCtx.vector_size in E; lia|].
  rewrite bind_run.
  destruct (gather_max_row_count_outcomes state preds 0 w) as [[e ->]|[z ->]];
    [left; eauto|].
  right. exists z.
  run_with next_pseudo_plan_node_id_run.
  run_with make_shared_run.
  run_with next_operator_id_run.
  run_with make_shared_run.
  rewrite bind_run.
  erewrite set_runtime_state_ok by (tidy; new_address).
  cbv beta iota zeta; tidy.
  rewrite insert_app_r; cbn [insert list_insert with_runtime_state].
  run_with make_shared_run.
  rewrite bind_run.
  match goal with |- context [gather_append_sinks ?pn ?ex preds ?w1] =>
    destruct (gather_append_sinks_run pn ex preds w1)
      as (ids & w' & Hlen & Hrun & Hobj & Hpipe & Hdop') end.
  cbv zeta in *.
  cbn [objects context _pipelines _id_gen _degree_of_parallelism] in *.
  rewrite length_app in *. cbn [length] in *.
  rewrite Hrun. cbv beta iota.
  rewrite bind_run, context_degree_of_parallelism_run, Hdop'.
  rewrite bind_run.
  erewrite set_degree_of_parallelism_ok
    by (rewrite Hobj, <- app_assoc; new_address).
  cbv beta iota. rewrite ret_run.
  rewrite CIntFacts.to_size_t_id by exact Hdop.
  eexists _, _, _, ids. cbv zeta.
  cbn [objects context _pipelines _id_gen _degree_of_parallelism].
  split; [exact Hlen|]. split; [reflexivity|].
  split; [|split; [exact Hpipe|exact Hdop']].
  rewrite Hobj, <- app_assoc, insert_app_r. reflexivity.
Qed.


Lemma lookup_map {A B} (f : A -> B) (l : list A) (i : nat) :
  map f l !! i = f <$> l !! i.
Proof. exact (list_lookup_fmap f l i). Qed.

(** What a gathering looks like from outside. *)
Lemma gathered_shape budget state preds w res preds' w' :
  gathered budget state preds w (Ok (res, preds') w') ->
  let mem_mgr := length (objects w) in
  res = [(mem_mgr + 1)%nat] /\
  preds' = imap (fun i p => p ++ [(mem_mgr + 3 + i)%nat]) preds /\
  sealed w w' = map mkPipeline preds' /\
  extends w w' /\
  begins_with_source w' res (_degree_of_parallelism (context w)) /\
  (forall i, (i < length preds)%nat -> is_sink_at w' (mem_mgr + 3 + i)%nat).
Proof.
  intros (w0 & source_id & pn & ids & Hlen & Hr & Hobj & Hpipe & Hdop).
  cbv zeta in *. inversion Hr; subst w0 res preds'. clear Hr.
  assert (Hc : created w w' = drop (length (objects w)) (objects w')) by reflexivity.
  assert (Hs : sealed w w'
               = drop (length (_pipelines (context w))) (_pipelines (context w')))
    by reflexivity.
  rewrite Hobj, drop_app_length in Hc. rewrite Hpipe, drop_app_length in Hs.
  split; [reflexivity|]. split; [reflexivity|]. split; [exact Hs|].
  split; [unfold extends; rewrite Hc, Hs; now repeat split|].
  split.
  - eexists _, [], _. split; [reflexivity|].
    split; [rewrite Hobj, lookup_past; reflexivity|reflexivity].
  - intros i Hi. rewrite <- Hlen in Hi.
    destruct (lookup_lt_is_Some_2 ids i Hi) as [sid Hsid].
    exists sid, pn, (length (objects w) + 2)%nat.
    rewrite Hobj, <- Nat.add_assoc, lookup_past.
    rewrite lookup_app_r by (cbn [length]; lia). cbn [length].
    replace (3 + i - 3)%nat with i by lia.
    now rewrite lookup_map, Hsid.
Qed.

Lemma passthrough_returns_input state res d num_receivers w :
  begins_with_source w res d ->
  d = CInt.to_size_t num_receivers ->
  maybe_interpolate_local_passthrough_exchange state res num_receivers w
    = Ok (res, res) w.
Proof.
  intros (front & rest & f & -> & Hf & Hd) ->.
  pose proof (degree_of_parallelism_is_source _ _ Hd) as Hs.
  unfold maybe_interpolate_local_passthrough_exchange.
  set (pred := front :: rest).
  rewrite bind_run, (dcheck_nonempty_source_ok pred front f) by easy.
  rewrite bind_run, (vector_at_ok pred 0 front) by easy.
  rewrite bind_run, (down_cast_source_ok front f) by easy.
  rewrite bind_run, (source_degree_of_parallelism_ok front f _ _ Hf Hd).
  now rewrite Z.eqb_refl.
Qed.

Lemma interpolated_begins_with_source make_exchanger budget new_dop state pred w
    res pred' w' :
  interpolated make_exchanger budget new_dop state pred w (Ok (res, pred') w') ->
  begins_with_source w' res new_dop.
Proof.
  intros (w0 & source_id & sink_id & pn & Hr & Hobj & _).
  cbv zeta in *. inversion Hr; subst w0 res pred'.
  eexists _, [], _. split; [reflexivity|].
  split; [rewrite Hobj, lookup_past; reflexivity|reflexivity].
Qed.

(** *** Interpolating twice *)

(** X9.  After a passthrough or broadcast interpolation to
    [num_receivers] has returned, whatever it did, a passthrough
    interpolation of the returned sequence to the same [num_receivers]
    returns that sequence and changes nothing: no second exchange is
    created. *)
Theorem passthrough_after_interpolation_changes_nothing
    (state : RuntimeState) (pred : OpFactories) (num_receivers : Z) (w : World)
    (res pred' : OpFactories) (w' : World) :
  maybe_interpolate_local_passthrough_exchange state pred num_receivers w
    = Ok (res, pred') w' \/
  maybe_interpolate_local_broadcast_exchange state pred num_receivers w
    = Ok (res, pred') w' ->
  maybe_interpolate_local_passthrough_exchange state res num_receivers w'
    = Ok (res, res) w'.
Proof.
  assert (Hpass : forall nr,
    maybe_interpolate_local_passthrough_exchange state pred nr w = Ok (res, pred') w' ->
    maybe_interpolate_local_passthrough_exchange state res nr w' = Ok (res, res) w').
  { intros nr H.
    destruct (passthrough_outcomes state pred nr w) as [[e He]|[Hn|[b Hi]]];
      cbv zeta in *; rewrite H in *.
    - discriminate.
    - inversion Hn; subst. exact H.
    - eapply passthrough_returns_input;
        [eapply interpolated_begins_with_source; exact Hi|reflexivity]. }
  intros [H|H]; [now apply Hpass|].
  destruct (decide (num_receivers = 1)) as [->|Hne]; [now apply Hpass|].
  destruct (broadcast_many_outcomes state pred num_receivers w Hne) as [[e He]|[b Hi]];
    cbv zeta in *; rewrite H in *; [discriminate|].
  eapply passthrough_returns_input;
    [eapply interpolated_begins_with_source; exact Hi|reflexivity].
Qed.

(** *** What a call leaves in place *)

(** X10.  A call of any of the three interpolations, or of the gathering,
    that returns has only appended: the objects and the sealed pipelines
    that existed are still there, unchanged and in the same places, and the
    parallelism of the builder context is what it was. *)
Theorem interpolation_only_appends
    (state : RuntimeState) (pred : OpFactories) (preds : list OpFactories) (w : World) :
  (forall res pred' w',
     interpolation_returns state pred w res pred' w' -> extends w w') /\
  (CInt.in_size_t (_degree_of_parallelism (context w)) ->
   forall res preds' w',
     maybe_gather_pipelines_to_one state preds w = Ok (res, preds') w' ->
     extends w w').
Proof.
  split.
  - intros res pred' w' H.
    destruct (interpolation_returns_outcome _ _ _ _ _ _ H)
      as [(_ & _ & ->)|(mk & b & d & Hi)]; [apply extends_refl|].
    now destruct (interpolated_shape _ _ _ _ _ _ _ _ _ Hi) as (? & ? & ? & ? & ? & ? & ? & ?).
  - intros Hdop res preds' w' H.
    destruct (decide (length preds = 1%nat)) as [Hone|Hk].
    + destruct preds as [|p [|q rest]]; try discriminate.
      cbv in H. inversion H; subst. apply extends_refl.
    + destruct (gather_outcomes state preds w Hk Hdop) as [[e He]|[b Hg]];
        cbv zeta in *; rewrite H in *; [discriminate|].
      now destruct (gathered_shape _ _ _ _ _ _ _ Hg) as (? & ? & ? & ? & ?).
Qed.

(** *** The open sequence *)

(** X11.  When the sequence handed to an interpolation begins with a
    source factory, so does the sequence the interpolation returns, in the
    world it leaves: interpolations can follow one another.  The same holds
    for the gathering of predecessors that all begin with source factories,
    however many there are. *)
Theorem returned_sequence_begins_with_source
    (state : RuntimeState) (pred : OpFactories) (preds : list OpFactories) (w : World) :
  (forall res pred' w',
     (exists dop, begins_with_source w pred dop) ->
     interpolation_returns state pred w res pred' w' ->
     exists dop', begins_with_source w' res dop') /\
  (CInt.in_size_t (_degree_of_parallelism (context w)) ->
   Forall (fun p => exists dop, begins_with_source w p dop) preds ->
   forall res preds' w',
     maybe_gather_pipelines_to_one state preds w = Ok (res, preds') w' ->
     exists dop', begins_with_source w' res dop').
Proof.
  split.
  - intros res pred' w' Hsrc H.
    destruct (interpolation_returns_outcome _ _ _ _ _ _ H)
      as [(-> & _ & ->)|(mk & b & d & Hi)]; [exact Hsrc|].
    exists d. eapply interpolated_begins_with_source, Hi.
  - intros Hdop Hall res preds' w' H.
    destruct (decide (length preds = 1%nat)) as [Hone|Hk].
    + destruct preds as [|p [|q rest]]; try discriminate.
      cbv in H. inversion H; subst. now inversion Hall.
    + destruct (gather_outcomes state preds w Hk Hdop) as [[e He]|[b Hg]];
        cbv zeta in *; rewrite H in *; [discriminate|].
      destruct (gathered_shape _ _ _ _ _ _ _ Hg) as (_ & _ & _ & _ & Hb & _).
      eauto.
Qed.

(** *** The sealed pipelines *)

Lemma source_first_sink_last_sealed w w' pred sink :
  extends w w' ->
  (exists dop, begins_with_source w pred dop) ->
  is_sink_at w' sink ->
  source_first_sink_last w' (mkPipeline (pred ++ [sink])).
Proof.
  intros Hext [dop Hb] Hsink. split.
  - exists dop. apply (begins_with_source_extends w w' _ _ Hext) in Hb.
    destruct Hb as (front & rest & f & -> & Hf & Hd).
    now exists front, (rest ++ [sink]), f.
  - now exists pred, sink.
Qed.

(** X12.  Every pipeline that an interpolation or the gathering seals
    for predecessors that begin with source factories begins with a source
    factory and ends with a local exchange sink, and a pipeline that had
    this shape before the call still has it afterwards. *)
Theorem sealed_pipelines_have_source_first_sink_last
    (state : RuntimeState) (pred : OpFactories) (preds : list OpFactories) (w : World) :
  (forall res pred' w',
     (exists dop, begins_with_source w pred dop) ->
     interpolation_returns state pred w res pred' w' ->
     Forall (source_first_sink_last w') (sealed w w') /\
     (forall pipe, source_first_sink_last w pipe -> source_first_sink_last w' pipe)) /\
  (CInt.in_size_t (_degree_of_parallelism (context w)) ->
   Forall (fun p => exists dop, begins_with_source w p dop) preds ->
   forall res preds' w',
     maybe_gather_pipelines_to_one state preds w = Ok (res, preds') w' ->
     Forall (source_first_sink_last w') (sealed w w') /\
     (forall pipe, source_first_sink_last w pipe -> source_first_sink_last w' pipe)).
Proof.
  assert (Hkeep : forall w', extends w w' ->
    forall pipe, source_first_sink_last w pipe -> source_first_sink_last w' pipe).
  { intros w' Hext pipe [[d Hb] (init & sink & Hops & Hsink)]. split.
    - exists d. now apply (begins_with_source_extends w w').
    - exists init, sink. split; [exact Hops|]. now apply (is_sink_at_extends w w'). }
  assert (Hnone : Forall (source_first_sink_last w) (sealed w w)).
  { unfold sealed. rewrite drop_all. constructor. }
  split.
  - intros res pred' w' Hsrc H.
    destruct (interpolation_returns_outcome _ _ _ _ _ _ H)
      as [(_ & _ & ->)|(mk & b & d & Hi)];
      [split; [exact Hnone|apply Hkeep, extends_refl]|].
    destruct (interpolated_shape _ _ _ _ _ _ _ _ _ Hi)
      as (source_id & sink_id & pn & _ & Hpred' & Hcreated & Hsealed & Hext).
    cbv zeta in *. rewrite Hsealed, Hpred'.
    split; [|now apply Hkeep].
    constructor; [|constructor].
    apply (source_first_sink_last_sealed w); [exact Hext|exact Hsrc|].
    exists sink_id, pn, (length (objects w) + 2)%nat.
    destruct Hext as (Hobj & _ & _).
    rewrite Hobj, Hcreated, lookup_past. reflexivity.
  - intros Hdop Hall res preds' w' H.
    destruct (decide (length preds = 1%nat)) as [Hone|Hk].
    + destruct preds as [|p [|q rest]]; try discriminate.
      cbv in H. inversion H; subst. split; [exact Hnone|apply Hkeep, extends_refl].
    + destruct (gather_outcomes state preds w Hk Hdop) as [[e He]|[b Hg]];
        cbv zeta in *; rewrite H in *; [discriminate|].
      destruct (gathered_shape _ _ _ _ _ _ _ Hg) as (_ & -> & -> & Hext & _ & Hsinks).
      split; [|now apply Hkeep].
      apply Forall_fmap, Forall_lookup. intros i p' Hi.
      rewrite list_lookup_imap in Hi.
      apply fmap_Some in Hi as (p & Hp & ->). cbn.
      apply (source_first_sink_last_sealed w); [exact Hext| |].
      * exact (proj1 (Forall_lookup _ _) Hall i p Hp).
      * apply Hsinks. now apply lookup_lt_Some in Hp.
Qed.

(** *** Sequences without a source *)

Lemma not_a_source f : is_source f = false -> degree_of_parallelism f = None.
Proof. now destruct f. Qed.

(** X13.  Passthrough interpolation never returns for an empty sequence
    or for one whose first factory is not a source: it stops in the failed
    assertion, or in undefined behaviour where assertions are compiled out.
    Broadcast interpolation for a receiver count other than 1 has no such
    check: on the empty sequence, with a budget that fits, it returns, and
    the pipeline it seals holds the sink alone and begins with no source. *)
Theorem interpolation_without_a_source
    (state : RuntimeState) (num_receivers : Z) (w : World)
    (front : ptr) (rest : OpFactories) (f : OperatorFactory) :
  (exists e, maybe_interpolate_local_passthrough_exchange state [] num_receivers w
             = Failed e) /\
  (objects w !! front = Some (ObjFactory f) ->
   is_source f = false ->
   exists e, maybe_interpolate_local_passthrough_exchange state (front :: rest)
               num_receivers w = Failed e) /\
  (num_receivers <> 1 ->
   CInt.in_int (chunk_size state * num_receivers) ->
   CInt.in_int (chunk_size state * num_receivers * num_receivers) ->
   exists w',
     let sink := (length (objects w) + 3)%nat in
     maybe_interpolate_local_broadcast_exchange state [] num_receivers w
       = Ok ([(length (objects w) + 1)%nat], [sink]) w' /\
     sealed w w' = [mkPipeline [sink]] /\
     is_sink_at w' sink /\
     forall dop, ~ begins_with_source w' [sink] dop).
Proof.
  split; [|split].
  - unfold maybe_interpolate_local_passthrough_exchange, dcheck_nonempty_source.
    rewrite bind_run. destruct dcheck_is_on; eexists; reflexivity.
  - intros Hf Hs.
    unfold maybe_interpolate_local_passthrough_exchange, dcheck_nonempty_source,
      down_cast_source.
    rewrite bind_run. destruct dcheck_is_on.
    + rewrite bind_run, (load_factory_ok _ _ _ Hf), Hs. eexists; reflexivity.
    + rewrite ret_run, bind_run, (vector_at_ok (front :: rest) 0 front) by easy.
      rewrite bind_run, ret_run, bind_run.
      unfold source_degree_of_parallelism.
      rewrite bind_run, (load_factory_ok _ _ _ Hf), (not_a_source f Hs).
      eexists; reflexivity.
  - intros Hne Hmul1 Hmul.
    unfold maybe_interpolate_local_broadcast_exchange.
    destruct (Z.eqb_spec num_receivers 1) as [|_]; [contradiction|].
    run_with next_pseudo_plan_node_id_run.
    rewrite bind_run, run_int_mul by exact Hmul1. cbv beta iota.
    rewrite bind_run, run_int_mul by exact Hmul.
    create_exchange.
    eexists. cbv zeta. split; [reflexivity|].
    unfold sealed, is_sink_at, begins_with_source.
    cbn [objects context _pipelines _id_gen _degree_of_parallelism].
    rewrite drop_app_length. split; [reflexivity|]. split.
    + eexists _, _, _. rewrite lookup_past. reflexivity.
    + intros dop (fr & rs & f' & E & Hl & Hd). inversion E; subst fr rs.
      rewrite lookup_past in Hl. cbn in Hl. inversion Hl; subst f'. discriminate.
Qed.

(** X14.  The gathering of no predecessor at all still creates the
    shared exchange: a memory manager with budget 0, the exchange source at
    the parallelism of the builder context and the exchanger, with no sink
    and no pipeline sealed, and it returns that source, which nothing feeds.
    The gathering of one predecessor returns it unexamined, the empty
    sequence too. *)
Theorem gathering_nothing_creates_an_exchange (state : RuntimeState) (w : World) :
  CInt.in_size_t (_degree_of_parallelism (context w)) ->
  (exists w',
     maybe_gather_pipelines_to_one state [] w
       = Ok ([(length (objects w) + 1)%nat], []) w' /\
     gathered 0 state [] w (Ok ([(length (objects w) + 1)%nat], []) w') /\
     sealed w w' = [] /\
     length (created w w') = 3%nat) /\
  maybe_gather_pipelines_to_one state [[]] w = Ok ([], [[]]) w.
Proof.
  intros Hdop. split; [|reflexivity].
  unfold maybe_gather_pipelines_to_one.
  destruct (Z.eqb_spec (FragmentCtx.vector_size (@nil (list ptr))) 1) as [E|_];
    [discriminate E|].
  cbn [gather_max_row_count]. rewrite bind_run, ret_run.
  run_with next_pseudo_plan_node_id_run.
  run_with make_shared_run.
  run_with next_operator_id_run.
  run_with make_shared_run.
  rewrite bind_run.
  erewrite set_runtime_state_ok by (tidy; new_address).
  cbv beta iota zeta; tidy.
  rewrite insert_app_r; cbn [insert list_insert with_runtime_state].
  run_with make_shared_run.
  cbn [gather_append_sinks]. rewrite bind_run, ret_run.
  rewrite bind_run, context_degree_of_parallelism_run.
  cbn [objects context _pipelines _id_gen _degree_of_parallelism].
  rewrite bind_run.
  erewrite set_degree_of_parallelism_ok by (tidy; new_address).
  cbv beta iota zeta; tidy.
  rewrite insert_app_r; cbn [insert list_insert with_degree_of_parallelism].
  rewrite ret_run, CIntFacts.to_size_t_id by exact Hdop.
  eexists. split; [reflexivity|]. split; [|split].
  - eexists _, _, _, []. cbv zeta.
    cbn [objects context _pipelines _id_gen _degree_of_parallelism imap map length].
    rewrite !app_nil_r. now repeat split.
  - unfold sealed. cbn [objects context _pipelines]. apply drop_all.
  - unfold created. cbn [objects]. now rewrite drop_app_length.
Qed.

End WithEnv.

(** *** Concrete runs *)

Lemma passthrough_after_interpolation_changes_nothing_witness :
  exists res pred' w',
    maybe_interpolate_local_broadcast_exchange (Env := counting_env)
      rows4096 [0%nat] 4 (scans_world [2] 1) = Ok (res, pred') w' /\
    maybe_interpolate_local_passthrough_exchange rows4096 res 4 w' = Ok (res, res) w'.
Proof.
  eexists _, _, _. split; [cbv; reflexivity|].
  apply (passthrough_after_interpolation_changes_nothing (Env := counting_env)
           rows4096 [0%nat] 4 (scans_world [2] 1) _ [0%nat; 4%nat]).
  right. reflexivity.
Defined.

Lemma interpolation_only_appends_witness :
  (exists res pred' w',
     maybe_interpolate_local_shuffle_exchange (Env := counting_env)
       rows4096 [0%nat] [] 2 (scans_world [4; 2] 3) = Ok (res, pred') w' /\
     extends (scans_world [4; 2] 3) w') /\
  (exists res preds' w',
     maybe_gather_pipelines_to_one (Env := counting_env)
       rows4096 [[0%nat]; [1%nat]] (scans_world [4; 2] 3) = Ok (res, preds') w' /\
     extends (scans_world [4; 2] 3) w').
Proof.
  pose proof (interpolation_only_appends (Env := counting_env) rows4096 [0%nat]
                [[0%nat]; [1%nat]] (scans_world [4; 2] 3)) as [Hint Hgather].
  split.
  - eexists _, _, _. split; [cbv; reflexivity|].
    eapply Hint, (shuffle_returns _ _ _ _ _ _ [] 2). cbv. reflexivity.
  - eexists _, _, _. split; [cbv; reflexivity|].
    eapply Hgather; [apply in_size_t_small; cbn; lia|cbv; reflexivity].
Defined.

Lemma returned_sequence_begins_with_source_witness :
  (exists res pred' w' dop',
     maybe_interpolate_local_passthrough_exchange (Env := counting_env)
       rows4096 [0%nat] 1 (scans_world [4; 2] 3) = Ok (res, pred') w' /\
     begins_with_source w' res dop') /\
  (exists res preds' w' dop',
     maybe_gather_pipelines_to_one (Env := counting_env)
       rows4096 [[0%nat]; [1%nat]] (scans_world [4; 2] 3) = Ok (res, preds') w' /\
     begins_with_source w' res dop').
Proof.
  pose proof (returned_sequence_begins_with_source (Env := counting_env) rows4096
                [0%nat] [[0%nat]; [1%nat]] (scans_world [4; 2] 3)) as [Hint Hgather].
  split.
  - edestruct Hint as [d Hd].
    { exists 4. now apply scans_begin_with_source. }
    { apply (passthrough_returns _ _ _ _ _ _ 1). cbv. reflexivity. }
    eexists _, _, _, d. split; [cbv; reflexivity|exact Hd].
  - edestruct Hgather as [d Hd].
    { apply in_size_t_small. cbn. lia. }
    { repeat constructor; eexists; now apply scans_begin_with_source. }
    { cbv. reflexivity. }
    eexists _, _, _, d. split; [cbv; reflexivity|exact Hd].
Defined.

Lemma sealed_pipelines_have_source_first_sink_last_witness :
  exists res pred' w',
    maybe_interpolate_local_broadcast_exchange (Env := counting_env)
      rows4096 [0%nat] 4 (scans_world [2] 1) = Ok (res, pred') w' /\
    Forall (source_first_sink_last w') (sealed (scans_world [2] 1) w') /\
    (forall pipe, source_first_sink_last (scans_world [2] 1) pipe ->
                  source_first_sink_last w' pipe).
Proof.
  eexists _, _, _. split; [cbv; reflexivity|].
  apply (proj1 (sealed_pipelines_have_source_first_sink_last (Env := counting_env)
                  rows4096 [0%nat] [] (scans_world [2] 1)) [2%nat] [0%nat; 4%nat]).
  - exists 2. now apply scans_begin_with_source.
  - apply (broadcast_returns _ _ _ _ _ _ 4). cbv. reflexivity.
Defined.

Lemma interpolation_without_a_source_witness :
  (exists e, maybe_interpolate_local_passthrough_exchange (Env := counting_env)
               rows4096 [0%nat] 1 filter_world = Failed e) /\
  (exists w',
     let sink := (length (objects filter_world) + 3)%nat in
     maybe_interpolate_local_broadcast_exchange (Env := counting_env)
       rows4096 [] 2 filter_world
       = Ok ([(length (objects filter_world) + 1)%nat], [sink]) w' /\
     sealed filter_world w' = [mkPipeline [sink]] /\
     is_sink_at w' sink /\
     forall dop, ~ begins_with_source w' [sink] dop).
Proof.
  destruct (interpolation_without_a_source (Env := counting_env) rows4096 2
              filter_world 0%nat [] (PlanOperatorFactory 0 0))
    as (_ & Hhead & Hbroadcast).
  destruct (interpolation_without_a_source (Env := counting_env) rows4096 1
              filter_world 0%nat [] (PlanOperatorFactory 0 0))
    as (_ & Hhead1 & _).
  split.
  - apply Hhead1; reflexivity.
  - apply Hbroadcast; [lia|apply in_int_small; cbn; lia|apply in_int_small; cbn; lia].
Defined.

Lemma gathering_nothing_creates_an_exchange_witness :
  (exists w',
     maybe_gather_pipelines_to_one (Env := counting_env) rows4096 [] (scans_world [] 3)
       = Ok ([(length (objects (scans_world [] 3)) + 1)%nat], []) w' /\
     gathered 0 rows4096 [] (scans_world [] 3)
              (Ok ([(length (objects (scans_world [] 3)) + 1)%nat], []) w') /\
     sealed (scans_world [] 3) w' = [] /\
     length (created (scans_world [] 3) w') = 3%nat) /\
  maybe_gather_pipelines_to_one (Env := counting_env) rows4096 [[]] (scans_world [] 3)
    = Ok ([], [[]]) (scans_world [] 3).
Proof.
  apply (gathering_nothing_creates_an_exchange (Env := counting_env) rows4096
           (scans_world [] 3)).
  apply in_size_t_small. cbn. lia.
Defined.

End BuilderExtra.
